(** * Surface commit, hit-testing and region accumulation of [mf::WlSurface]

    A shallow embedding of [src/server/frontend_wayland/wl_surface.cpp]:
    the double-buffered surface state ([WlSurfaceState], [WlSurface]),
    the commit path, role assignment, frame-callback delivery,
    [subsurface_at] and [populate_surface_data].

    Integers of the source ([int], [int32_t]) are modelled as [Z]; signed
    overflow is undefined behaviour in the source and is outside the model. *)

From Stdlib Require Import ZArith List Bool Lia.
From stdpp Require Import base tactics decidable option list gmap strings.

Local Open Scope Z_scope.

(** ** Geometry ([mir::geometry]) *)

Module geom.

Record Point := { x : Z; y : Z }.
Record Displacement := { dx : Z; dy : Z }.
Record Size := { width : Z; height : Z }.
Record Rectangle := { top_left : Point; size : Size }.

#[global] Instance Point_eq_dec : EqDecision Point.
Proof. solve_decision. Defined.
#[global] Instance Displacement_eq_dec : EqDecision Displacement.
Proof. solve_decision. Defined.
#[global] Instance Size_eq_dec : EqDecision Size.
Proof. solve_decision. Defined.
#[global] Instance Rectangle_eq_dec : EqDecision Rectangle.
Proof. solve_decision. Defined.

(** [geom::Point{}], [geom::Displacement{}], [geom::Size{}],
    [geom::Rectangle{}]: value-initialised, all components zero. *)
Definition Point0 : Point := {| x := 0; y := 0 |}.
Definition Displacement0 : Displacement := {| dx := 0; dy := 0 |}.
Definition Size0 : Size := {| width := 0; height := 0 |}.
Definition Rectangle0 : Rectangle := {| top_left := Point0; size := Size0 |}.

(** [Point + Displacement], [Point - Displacement],
    [Displacement + Displacement]: componentwise. *)
Definition point_plus (p : Point) (d : Displacement) : Point :=
  {| x := x p + dx d; y := y p + dy d |}.
Definition point_minus (p : Point) (d : Displacement) : Point :=
  {| x := x p - dx d; y := y p - dy d |}.
Definition displacement_plus (a b : Displacement) : Displacement :=
  {| dx := dx a + dx b; dy := dy a + dy b |}.

Definition left (r : Rectangle) : Z := x (top_left r).
Definition top (r : Rectangle) : Z := y (top_left r).
Definition right (r : Rectangle) : Z := x (top_left r) + width (size r).
Definition bottom (r : Rectangle) : Z := y (top_left r) + height (size r).

(** Modelled from the spec: [geom::Rectangle::contains] is declared in
    mir/geometry/rectangle.h, which is not under src/. A rectangle is a
    top-left corner and a size ("covering (0,0)-(100,100)"); a zero-size
    rectangle is degenerate and accepts no point ("accept no input"). *)
Definition contains (r : Rectangle) (p : Point) : bool :=
  if (width (size r) =? 0) || (height (size r) =? 0) then false
  else (left r <=? x p) && (x p <? right r) &&
       (top r <=? y p) && (y p <? bottom r).

(** Modelled from the spec: [geom::Rectangle::intersection_with] is declared
    in mir/geometry/rectangle.h, which is not under src/. The result is the
    part of the rectangle "clipped to the surface's own rectangle"; an
    empty overlap is the value-initialised rectangle. *)
Definition intersection_with (r other : Rectangle) : Rectangle :=
  let a := Z.max (left r) (left other) in
  let b := Z.min (right r) (right other) in
  let c := Z.max (top r) (top other) in
  let d := Z.min (bottom r) (bottom other) in
  if (a <? b) && (c <? d)
  then {| top_left := {| x := a; y := c |};
          size := {| width := b - a; height := d - c |} |}
  else Rectangle0.

End geom.

Import geom.

(** ** Client resources and collaborators *)

(** A [wl_resource*] or an object address; [nullptr] is [None] where the
    source allows it. *)
Definition wl_resource := nat.
Definition ptr := nat.

(** [WlSurfaceState::Callback]: the frame-callback resource. Its [destroyed]
    flag is shared with the resource and lives in the machine's store. *)
Abbreviation Callback := wl_resource (only parsing).

Inductive MirPixelFormat :=
| mir_pixel_format_invalid
| mir_pixel_format_abgr_8888
| mir_pixel_format_xbgr_8888
| mir_pixel_format_argb_8888
| mir_pixel_format_xrgb_8888
| mir_pixel_format_bgr_888
| mir_pixel_format_rgb_888
| mir_pixel_format_rgb_565
| mir_pixel_format_rgba_5551
| mir_pixel_format_rgba_4444.

(** [enum wl_shm_format] of wayland-server-protocol.h (the two legacy codes
    and the fourcc codes the switch in [wl_format_to_mir_format] names). *)
Definition WL_SHM_FORMAT_ARGB8888 : Z := 0.
Definition WL_SHM_FORMAT_XRGB8888 : Z := 1.
Definition WL_SHM_FORMAT_RGBA4444 : Z := 0x32314152.
Definition WL_SHM_FORMAT_RGBA5551 : Z := 0x35314152.
Definition WL_SHM_FORMAT_RGB565 : Z := 0x36314752.
Definition WL_SHM_FORMAT_RGB888 : Z := 0x34324752.
Definition WL_SHM_FORMAT_BGR888 : Z := 0x34324742.
Definition WL_SHM_FORMAT_XBGR8888 : Z := 0x34324258.
Definition WL_SHM_FORMAT_ABGR8888 : Z := 0x34324241.

Definition wl_format_to_mir_format (format : Z) : MirPixelFormat :=
  if format =? WL_SHM_FORMAT_ARGB8888 then mir_pixel_format_argb_8888
  else if format =? WL_SHM_FORMAT_XRGB8888 then mir_pixel_format_xrgb_8888
  else if format =? WL_SHM_FORMAT_RGBA4444 then mir_pixel_format_rgba_4444
  else if format =? WL_SHM_FORMAT_RGBA5551 then mir_pixel_format_rgba_5551
  else if format =? WL_SHM_FORMAT_RGB565 then mir_pixel_format_rgb_565
  else if format =? WL_SHM_FORMAT_RGB888 then mir_pixel_format_rgb_888
  else if format =? WL_SHM_FORMAT_BGR888 then mir_pixel_format_bgr_888
  else if format =? WL_SHM_FORMAT_XBGR8888 then mir_pixel_format_xbgr_8888
  else if format =? WL_SHM_FORMAT_ABGR8888 then mir_pixel_format_abgr_8888
  else mir_pixel_format_invalid.

(** What [wl_shm_buffer_get_stride], [_get_width] and [_get_format] read from
    a shared-memory buffer: two [int32_t] and a [uint32_t]. *)
Record wl_shm_buffer := {
  shm_stride : Z;
  shm_width : Z;
  shm_format : Z
}.

(** The range of [int32_t], which is also that of [int]. *)
Definition INT32_MIN : Z := - 2 ^ 31.
Definition INT32_MAX : Z := 2 ^ 31 - 1.

(** Arithmetic on an [int32_t] and an [int] is done in 32 bits.
    [int32_wrap z] is what a two's-complement [int] holds after an operation
    whose exact result is [z]: [z] itself when it is in range, and [z] moved
    by a multiple of 2^32 into the range when it is not. (The language leaves
    the overflow of a signed product undefined; the model takes the value the
    machine multiplication gives.) *)
Definition int32_wrap (z : Z) : Z := (z - INT32_MIN) mod 2 ^ 32 + INT32_MIN.

Inductive wl_shm_error :=
| WL_SHM_ERROR_INVALID_FORMAT
| WL_SHM_ERROR_INVALID_STRIDE
| WL_SHM_ERROR_INVALID_FD.

(** The closures [commit] hands to the allocator. Both only spawn work on
    the executor: [executor_send_frame_callbacks] spawns
    [send_frame_callbacks] on the surface (if it is still alive), and
    [release_buffer] spawns the release event of the buffer (unless it has
    been destroyed). *)
Inductive Task :=
| executor_send_frame_callbacks (weak_self : ptr)
| release_buffer (buffer : wl_resource).

(** A [graphics::Buffer] as the allocator builds it: the client buffer it
    imports and the completions it was given. *)
Record Buffer := {
  imported_from : wl_resource;
  on_consumed : Task;
  on_release : option Task
}.

(** The surface's [compositor::BufferStream], seen through the calls the
    surface makes on it: the last scale set and the buffers submitted. *)
Record BufferStream := {
  stream_scale : Z;
  submitted : list Buffer
}.

Definition set_scale (v : Z) (st : BufferStream) : BufferStream :=
  {| stream_scale := v; submitted := submitted st |}.

Definition submit_buffer (b : Buffer) (st : BufferStream) : BufferStream :=
  {| stream_scale := stream_scale st; submitted := submitted st ++ [b] |}.

Inductive exception :=
| runtime_error (what : string).

(** The collaborators [wl_surface.cpp] calls and whose code is elsewhere:
    libwayland's [wl_shm_buffer_get], the macro [MIR_BYTES_PER_PIXEL] of
    mir_toolkit/common.h, the graphics allocator (which either builds the
    buffer or throws) and the stream's [stream_size]. *)
Class Platform := {
  wl_shm_buffer_get : wl_resource -> option wl_shm_buffer;
  MIR_BYTES_PER_PIXEL : MirPixelFormat -> Z;
  allocator_throws : wl_resource -> option exception;
  stream_size : BufferStream -> Size
}.

(** ** Pending state ([WlSurfaceState]) *)

Module WlSurfaceState.

(** Every committable field is optional: [None] means the field was not
    sent in this commit. [buffer] holds a [wl_resource*], whose [nullptr]
    ([Some None]) is "attach none"; [input_shape] is an optional optional,
    whose [Some None] resets the input region to the default. *)
Record t := mk {
  buffer : option (option wl_resource);
  scale : option Z;
  offset : option Displacement;
  input_shape : option (option (list Rectangle));
  frame_callbacks : list Callback;
  surface_data_invalidated : bool
}.

(** [WlSurfaceState()] *)
Definition empty : t :=
  {| buffer := None; scale := None; offset := None; input_shape := None;
     frame_callbacks := []; surface_data_invalidated := false |}.

Definition update_from (source self : t) : t :=
  {| buffer :=
       match buffer source with Some _ => buffer source | None => buffer self end;
     scale :=
       match scale source with Some _ => scale source | None => scale self end;
     offset :=
       match offset source with Some _ => offset source | None => offset self end;
     input_shape :=
       match input_shape source with
       | Some _ => input_shape source
       | None => input_shape self
       end;
     frame_callbacks := frame_callbacks self ++ frame_callbacks source;
     surface_data_invalidated :=
       if surface_data_invalidated source then true
       else surface_data_invalidated self |}.

Definition surface_data_needs_refresh (self : t) : bool :=
  bool_decide (is_Some (offset self)) ||
  bool_decide (is_Some (input_shape self)) ||
  surface_data_invalidated self.

(** [invalidate_surface_data() const]: sets the mutable flag. *)
Definition invalidate_surface_data (self : t) : t :=
  {| buffer := buffer self; scale := scale self; offset := offset self;
     input_shape := input_shape self;
     frame_callbacks := frame_callbacks self;
     surface_data_invalidated := true |}.

Definition with_offset (v : option Displacement) (self : t) : t :=
  {| buffer := buffer self; scale := scale self; offset := v;
     input_shape := input_shape self;
     frame_callbacks := frame_callbacks self;
     surface_data_invalidated := surface_data_invalidated self |}.

Definition with_input_shape (v : option (option (list Rectangle))) (self : t) : t :=
  {| buffer := buffer self; scale := scale self; offset := offset self;
     input_shape := v;
     frame_callbacks := frame_callbacks self;
     surface_data_invalidated := surface_data_invalidated self |}.

Definition with_buffer (v : option (option wl_resource)) (self : t) : t :=
  {| buffer := v; scale := scale self; offset := offset self;
     input_shape := input_shape self;
     frame_callbacks := frame_callbacks self;
     surface_data_invalidated := surface_data_invalidated self |}.

Definition with_scale (v : option Z) (self : t) : t :=
  {| buffer := buffer self; scale := v; offset := offset self;
     input_shape := input_shape self;
     frame_callbacks := frame_callbacks self;
     surface_data_invalidated := surface_data_invalidated self |}.

Definition with_frame_callbacks (v : list Callback) (self : t) : t :=
  {| buffer := buffer self; scale := scale self; offset := offset self;
     input_shape := input_shape self;
     frame_callbacks := v;
     surface_data_invalidated := surface_data_invalidated self |}.

End WlSurfaceState.

(** [shell::StreamSpecification{stream, displacement, size}]; the stream is
    named by the surface that owns it. *)
Record StreamSpecification := {
  spec_stream : ptr;
  spec_displacement : Displacement;
  spec_size : option Size
}.

(** A child entry as the surface sees it: its address (compared by
    [std::find] and [std::remove]) and the two const queries the surface
    forwards to it. The class itself is defined in wl_subcompositor.cpp. *)
Record WlSubsurface := {
  subsurface_this : ptr;
  child_subsurface_at : Point -> option ptr;
  child_populate_surface_data :
    list StreamSpecification -> list Rectangle -> Displacement ->
    list StreamSpecification * list Rectangle
}.

(** The [role] pointer of a surface: its own [null_role] member, or a role
    object that lives elsewhere. *)
Inductive WlSurfaceRole :=
| null_role
| role_object (role : ptr).

#[global] Instance WlSurfaceRole_eq_dec : EqDecision WlSurfaceRole.
Proof. solve_decision. Defined.

(** Calls that leave the surface: protocol events and errors, notifications
    to children and to a role defined elsewhere, log lines. *)
Inductive Event :=
| send_done_event (frame : Callback)
| wl_resource_post_error (buffer : wl_resource) (code : wl_shm_error)
| parent_has_committed (child : ptr)
| role_commit (role : ptr) (state : WlSurfaceState.t)
| release_event (buffer : wl_resource)
| log_warning (msg : string).

(** ** The surface ([WlSurface]) *)

Module WlSurface.

Record t := mk {
  this : ptr;
  role : WlSurfaceRole;
  pending : WlSurfaceState.t;
  offset_ : Displacement;
  buffer_size_ : option Size;
  frame_callbacks : list Callback;
  input_shape : option (list Rectangle);
  children : list WlSubsurface;
  stream : BufferStream
}.

(** The constructor: the null role, nothing pending, unmapped, no explicit
    input region, no children; [stream] is the buffer stream the session
    creates for the surface. *)
Definition create (this : ptr) (stream : BufferStream) : t :=
  mk this null_role WlSurfaceState.empty Displacement0 None [] None [] stream.

Definition with_role (v : WlSurfaceRole) (s : t) : t :=
  mk (this s) v (pending s) (offset_ s) (buffer_size_ s)
     (frame_callbacks s) (input_shape s) (children s) (stream s).
Definition with_pending (v : WlSurfaceState.t) (s : t) : t :=
  mk (this s) (role s) v (offset_ s) (buffer_size_ s)
     (frame_callbacks s) (input_shape s) (children s) (stream s).
Definition with_offset_ (v : Displacement) (s : t) : t :=
  mk (this s) (role s) (pending s) v (buffer_size_ s)
     (frame_callbacks s) (input_shape s) (children s) (stream s).
Definition with_buffer_size_ (v : option Size) (s : t) : t :=
  mk (this s) (role s) (pending s) (offset_ s) v
     (frame_callbacks s) (input_shape s) (children s) (stream s).
Definition with_frame_callbacks (v : list Callback) (s : t) : t :=
  mk (this s) (role s) (pending s) (offset_ s) (buffer_size_ s)
     v (input_shape s) (children s) (stream s).
Definition with_input_shape (v : option (list Rectangle)) (s : t) : t :=
  mk (this s) (role s) (pending s) (offset_ s) (buffer_size_ s)
     (frame_callbacks s) v (children s) (stream s).
Definition with_children (v : list WlSubsurface) (s : t) : t :=
  mk (this s) (role s) (pending s) (offset_ s) (buffer_size_ s)
     (frame_callbacks s) (input_shape s) v (stream s).
Definition with_stream (v : BufferStream) (s : t) : t :=
  mk (this s) (role s) (pending s) (offset_ s) (buffer_size_ s)
     (frame_callbacks s) (input_shape s) (children s) v.

(** *** Effects

    A member function that sends events or throws runs on a [Machine]:
    the surface, the [destroyed] flags of the client's resources (the
    [shared_ptr<bool>] of [deleted_flag_for_resource], [true] for the
    members of the set) and the calls that left the surface so far, oldest
    first. An exception leaves the machine as it was when thrown. *)
Record Machine := {
  surface : t;
  destroyed : gset wl_resource;
  events : list Event
}.

Inductive Result (A : Type) :=
| Returned (a : A) (m : Machine)
| Thrown (e : exception) (m : Machine).
Arguments Returned {A} a m.
Arguments Thrown {A} e m.

Definition machine_of {A} (r : Result A) : Machine :=
  match r with Returned _ m => m | Thrown _ m => m end.

Definition Act (A : Type) : Type := Machine -> Result A.

#[global] Instance Act_ret : MRet Act := fun A a m => Returned a m.
#[global] Instance Act_bind : MBind Act := fun A B f c m =>
  match c m with
  | Returned a m' => f a m'
  | Thrown e m' => Thrown e m'
  end.

Definition get : Act t := fun m => Returned (surface m) m.
Definition update (f : t -> t) : Act unit := fun m =>
  Returned tt {| surface := f (surface m); destroyed := destroyed m;
                 events := events m |}.
Definition emit (e : Event) : Act unit := fun m =>
  Returned tt {| surface := surface m; destroyed := destroyed m;
                 events := events m ++ [e] |}.
Definition throw {A} (e : exception) : Act A := fun m => Thrown e m.

(** [*frame->destroyed] *)
Definition is_destroyed (r : wl_resource) : Act bool := fun m =>
  Returned (bool_decide (r ∈ destroyed m)) m.

(** Modelled from the spec: [destroy_wayland_object] is declared in the
    generated wayland wrapper, which is not under src/. A frame callback is
    a "one-shot token": once done has been sent the resource is destroyed,
    which raises its [destroyed] flag. *)
Definition destroy_wayland_object (r : wl_resource) : Act unit := fun m =>
  Returned tt {| surface := surface m; destroyed := {[ r ]} ∪ destroyed m;
                 events := events m |}.

(** A range-based [for] whose body is an action. *)
Fixpoint for_each {A} (body : A -> Act unit) (l : list A) : Act unit :=
  match l with
  | [] => mret tt
  | a :: rest => body a;; for_each body rest
  end.

Definition set_role (role_ : WlSurfaceRole) : Act unit :=
  self ← get;
  if bool_decide (role self ≠ null_role)
  then throw (runtime_error "Surface already has a role")
  else update (with_role role_).

Definition clear_role (s : t) : t := with_role null_role s.

Definition set_pending_offset (offset : option Displacement) (s : t) : t :=
  with_pending (WlSurfaceState.with_offset offset (pending s)) s.

Definition add_subsurface (child : WlSubsurface) : Act unit :=
  self ← get;
  if existsb (fun c => bool_decide (subsurface_this c = subsurface_this child))
             (children self)
  then emit (log_warning "Subsurface %p added to surface %p multiple times")
  else update (with_children (children self ++ [child])).

Definition remove_subsurface (child : ptr) (s : t) : t :=
  with_children
    (filter (fun c => subsurface_this c ≠ child) (children s)) s.

(** *** Hit-testing *)

(** The reverse loop over the children: the first child, starting from the
    back of the vector, whose [subsurface_at] answers. *)
Fixpoint first_child_at (rev_children : list WlSubsurface) (point : Point)
  : option ptr :=
  match rev_children with
  | [] => None
  | child :: rest =>
      match child_subsurface_at child point with
      | Some result => Some result
      | None => first_child_at rest point
      end
  end.

(** The loop over the input rectangles. *)
Fixpoint any_rect_hit (rects : list Rectangle) (surface_rect : Rectangle)
                      (point : Point) : bool :=
  match rects with
  | [] => false
  | rect :: rest =>
      if contains (intersection_with rect surface_rect) point then true
      else any_rect_hit rest surface_rect point
  end.

Definition subsurface_at (s : t) (point : Point) : option ptr :=
  match buffer_size_ s with
  | None => None
  | Some buffer_size =>
      let point := point_minus point (offset_ s) in
      match first_child_at (rev (children s)) point with
      | Some result => Some result
      | None =>
          let surface_rect :=
            {| top_left := Point0; size := buffer_size |} in
          if any_rect_hit (default [surface_rect] (input_shape s))
                          surface_rect point
          then Some (this s)
          else None
      end
  end.

(** *** Region accumulation *)

(** The loop over an explicit input shape: each rectangle is moved by the
    cumulative offset, clipped to the surface and pushed. *)
Fixpoint push_clipped (rects : list Rectangle) (offset : Displacement)
                      (surface_rect : Rectangle)
                      (input_shape_accumulator : list Rectangle)
  : list Rectangle :=
  match rects with
  | [] => input_shape_accumulator
  | rect :: rest =>
      let rect := {| top_left := point_plus (top_left rect) offset;
                     size := size rect |} in
      let rect := intersection_with rect surface_rect in
      push_clipped rest offset surface_rect (input_shape_accumulator ++ [rect])
  end.

(** The loop over the children. *)
Fixpoint populate_children (subsurfaces : list WlSubsurface)
                           (buffer_streams : list StreamSpecification)
                           (input_shape_accumulator : list Rectangle)
                           (offset : Displacement)
  : list StreamSpecification * list Rectangle :=
  match subsurfaces with
  | [] => (buffer_streams, input_shape_accumulator)
  | subsurface :: rest =>
      let '(buffer_streams, input_shape_accumulator) :=
        child_populate_surface_data subsurface buffer_streams
                                    input_shape_accumulator offset in
      populate_children rest buffer_streams input_shape_accumulator offset
  end.

Definition populate_surface_data (s : t)
                                 (buffer_streams : list StreamSpecification)
                                 (input_shape_accumulator : list Rectangle)
                                 (parent_offset : Displacement)
  : list StreamSpecification * list Rectangle :=
  let offset := displacement_plus parent_offset (offset_ s) in
  let buffer_streams :=
    buffer_streams ++ [ {| spec_stream := this s; spec_displacement := offset;
                           spec_size := None |} ] in
  let surface_rect :=
    {| top_left := point_plus Point0 offset;
       size := default Size0 (buffer_size_ s) |} in
  let input_shape_accumulator :=
    match input_shape s with
    | Some rects =>
        let input_shape_accumulator :=
          push_clipped rects offset surface_rect input_shape_accumulator in
        if bool_decide (rects = [])
        then input_shape_accumulator ++ [Rectangle0]
        else input_shape_accumulator
    | None => input_shape_accumulator ++ [surface_rect]
    end in
  populate_children (children s) buffer_streams input_shape_accumulator offset.

(** *** Requests *)

Definition send_frame_callbacks : Act unit :=
  self ← get;
  for_each (fun frame =>
              dead ← is_destroyed frame;
              if negb dead
              then emit (send_done_event frame);; destroy_wayland_object frame
              else mret tt)
           (frame_callbacks self);;
  update (with_frame_callbacks []).

Definition attach (buffer : option wl_resource) (x y : Z) : Act unit :=
  (if negb (x =? 0) || negb (y =? 0)
   then emit (log_warning
     "Client requested unimplemented non-zero attach offset. Rendering will be incorrect.")
   else mret tt);;
  update (fun s => with_pending (WlSurfaceState.with_buffer (Some buffer) (pending s)) s).

Definition damage (x y width height : Z) (s : t) : t := s.
Definition damage_buffer (x y width height : Z) (s : t) : t := s.

Definition frame (new_callback : wl_resource) (s : t) : t :=
  with_pending
    (WlSurfaceState.with_frame_callbacks
       (WlSurfaceState.frame_callbacks (pending s) ++ [new_callback])
       (pending s)) s.

Definition set_opaque_region (region : option wl_resource) (s : t) : t := s.

(** The region resource is given by the rectangles
    [WlRegion::from(region)->rectangle_vector()] reads from it. *)
Definition set_input_region (region : option (list Rectangle)) (s : t) : t :=
  match region with
  | Some shape =>
      with_pending
        (WlSurfaceState.with_input_shape (Some (Some shape)) (pending s)) s
  | None =>
      with_pending (WlSurfaceState.with_input_shape (Some None) (pending s)) s
  end.

Definition set_buffer_transform (transform : Z) (s : t) : t := s.

Definition set_buffer_scale (scale : Z) (s : t) : t :=
  with_pending (WlSurfaceState.with_scale (Some scale) (pending s)) s.

Section Commit.
Context {platform : Platform}.

(** The shared-memory branch: the stride check, whose product is an [int],
    then the allocator. *)
Definition import_shm (buffer : wl_resource) (shm_buffer : wl_shm_buffer)
                      (on_consumed : Task) : Act Buffer :=
  let stride := shm_stride shm_buffer in
  let width := shm_width shm_buffer in
  let format := wl_format_to_mir_format (shm_format shm_buffer) in
  (if stride <? int32_wrap (width * MIR_BYTES_PER_PIXEL format)
   then emit (wl_resource_post_error buffer WL_SHM_ERROR_INVALID_STRIDE);;
        throw (runtime_error "Buffer has invalid stride")
   else mret tt);;
  match allocator_throws buffer with
  | Some e => throw e
  | None => mret {| imported_from := buffer; on_consumed := on_consumed;
                    on_release := None |}
  end.

(** The other branch: [allocator->buffer_from_resource]. *)
Definition import_resource (buffer : wl_resource) (on_consumed : Task)
  : Act Buffer :=
  match allocator_throws buffer with
  | Some e => throw e
  | None => mret {| imported_from := buffer; on_consumed := on_consumed;
                    on_release := Some (release_buffer buffer) |}
  end.

(** [WlSurface::commit(WlSurfaceState const& state)]. The result is
    [state] as the caller finds it afterwards: [invalidate_surface_data]
    writes its mutable flag. *)
Definition commit (state : WlSurfaceState.t) : Act WlSurfaceState.t :=
  update (fun s => with_frame_callbacks
            (frame_callbacks s ++ WlSurfaceState.frame_callbacks state) s);;
  (match WlSurfaceState.offset state with
   | Some v => update (with_offset_ v)
   | None => mret tt
   end);;
  (match WlSurfaceState.input_shape state with
   | Some v => update (with_input_shape v)
   | None => mret tt
   end);;
  (match WlSurfaceState.scale state with
   | Some v => update (fun s => with_stream (set_scale v (stream s)) s)
   | None => mret tt
   end);;
  state ←
    match WlSurfaceState.buffer state with
    | Some None =>
        update (with_buffer_size_ None);;
        send_frame_callbacks;;
        mret state
    | Some (Some buffer) =>
        self ← get;
        let executor_send_frame_callbacks :=
          executor_send_frame_callbacks (this self) in
        mir_buffer ←
          match wl_shm_buffer_get buffer with
          | Some shm_buffer =>
              import_shm buffer shm_buffer executor_send_frame_callbacks
          | None =>
              import_resource buffer executor_send_frame_callbacks
          end;
        update (fun s => with_stream (submit_buffer mir_buffer (stream s)) s);;
        self ← get;
        let new_buffer_size := stream_size (stream self) in
        let state :=
          if bool_decide (input_shape self = None) &&
             bool_decide (Some new_buffer_size ≠ buffer_size_ self)
          then WlSurfaceState.invalidate_surface_data state
          else state in
        update (with_buffer_size_ (Some new_buffer_size));;
        mret state
    | None =>
        send_frame_callbacks;;
        mret state
    end;
  self ← get;
  for_each (fun child => emit (parent_has_committed (subsurface_this child)))
           (children self);;
  mret state.

(** [NullWlSurfaceRole::commit(state)]: [surface->commit(state)]. *)
Definition NullWlSurfaceRole_commit (state : WlSurfaceState.t) : Act unit :=
  commit state;; mret tt.

(** [role->commit(state)]: the null role forwards to the surface; a role
    defined elsewhere receives the state. *)
Definition dispatch_commit (state : WlSurfaceState.t) : Act unit :=
  self ← get;
  match role self with
  | null_role => NullWlSurfaceRole_commit state
  | role_object r => emit (role_commit r state)
  end.

(** [WlSurface::commit()], the request. *)
Definition commit_pending : Act unit :=
  self ← get;
  (if bool_decide (WlSurfaceState.offset (pending self) = Some (offset_ self))
   then update (fun s => with_pending
                  (WlSurfaceState.with_offset None (pending s)) s)
   else mret tt);;
  self ← get;
  (if bool_decide (WlSurfaceState.input_shape (pending self)
                   = Some (input_shape self))
   then update (fun s => with_pending
                  (WlSurfaceState.with_input_shape None (pending s)) s)
   else mret tt);;
  self ← get;
  let state := pending self in
  update (with_pending WlSurfaceState.empty);;
  dispatch_commit state.

(** What the executor runs when a spawned task comes up. *)
Definition run_task (task : Task) : Act unit :=
  match task with
  | executor_send_frame_callbacks weak_self =>
      self ← get;
      if bool_decide (this self = weak_self)
      then send_frame_callbacks
      else mret tt
  | release_buffer buffer =>
      dead ← is_destroyed buffer;
      if negb dead then emit (release_event buffer) else mret tt
  end.

End Commit.

End WlSurface.

(** The part of a surface the compositor and the client can observe after a
    commit: buffer size, offset, input region and scale. *)
Definition CurrentState (s : WlSurface.t)
  : option Size * Displacement * option (list Rectangle) * Z :=
  (WlSurface.buffer_size_ s, WlSurface.offset_ s, WlSurface.input_shape s,
   stream_scale (WlSurface.stream s)).

(** The callbacks that were sent done, oldest first. *)
Fixpoint done_frames (evs : list Event) : list Callback :=
  match evs with
  | [] => []
  | send_done_event frame :: rest => frame :: done_frames rest
  | _ :: rest => done_frames rest
  end.

(** The surface after the first statements of [commit(state)]: the frame
    callbacks appended, and offset, input shape and scale written where the
    state sets them. *)
Definition merge_pending (state : WlSurfaceState.t) (s : WlSurface.t)
  : WlSurface.t :=
  let s := WlSurface.with_frame_callbacks
             (WlSurface.frame_callbacks s ++ WlSurfaceState.frame_callbacks state)
             s in
  let s := match WlSurfaceState.offset state with
           | Some v => WlSurface.with_offset_ v s
           | None => s
           end in
  let s := match WlSurfaceState.input_shape state with
           | Some v => WlSurface.with_input_shape v s
           | None => s
           end in
  match WlSurfaceState.scale state with
  | Some v => WlSurface.with_stream (set_scale v (WlSurface.stream s)) s
  | None => s
  end.

(** The notifications [commit] sends to the children, in order. *)
Definition notify_children (s : WlSurface.t) : list Event :=
  map (fun child => parent_has_committed (subsurface_this child))
      (WlSurface.children s).

(** The state [commit()] hands to the role: the pending state, with an
    offset or an input shape equal to the current one taken out. *)
Definition pending_to_commit (s : WlSurface.t) : WlSurfaceState.t :=
  let pending := WlSurface.pending s in
  let pending :=
    if bool_decide (WlSurfaceState.offset pending = Some (WlSurface.offset_ s))
    then WlSurfaceState.with_offset None pending
    else pending in
  if bool_decide (WlSurfaceState.input_shape pending
                  = Some (WlSurface.input_shape s))
  then WlSurfaceState.with_input_shape None pending
  else pending.

(** [send_frame_callbacks] as a function of the list and the flags: the
    callbacks that are sent done, in order, and the flags afterwards. *)
Fixpoint deliver (frames : list Callback) (flags : gset wl_resource)
  : list Callback * gset wl_resource :=
  match frames with
  | [] => ([], flags)
  | frame :: rest =>
      if bool_decide (frame ∈ flags) then deliver rest flags
      else let '(sent, flags) := deliver rest ({[ frame ]} ∪ flags) in
           (frame :: sent, flags)
  end.

(** The stride check of the shared-memory branch, as a test on the handle. *)
Definition invalid_stride {platform : Platform} (buffer : wl_resource) : bool :=
  match wl_shm_buffer_get buffer with
  | Some shm_buffer =>
      shm_stride shm_buffer <?
        int32_wrap
          (shm_width shm_buffer *
             MIR_BYTES_PER_PIXEL
               (wl_format_to_mir_format (shm_format shm_buffer)))
  | None => false
  end.

(** A handle passes the stride check and the allocator accepts it. *)
Definition importable {platform : Platform} (buffer : wl_resource) : bool :=
  negb (invalid_stride buffer) && bool_decide (allocator_throws buffer = None).

(** The buffer the allocator builds for a handle the surface [self] commits. *)
Definition imported {platform : Platform} (self : ptr) (buffer : wl_resource) : Buffer :=
  {| imported_from := buffer;
     on_consumed := executor_send_frame_callbacks self;
     on_release :=
       match wl_shm_buffer_get buffer with
       | Some _ => None
       | None => Some (release_buffer buffer)
       end |}.

(** The buffer size a surface has after [commit(state)]. *)
Definition buffer_size_after {platform : Platform} (state : WlSurfaceState.t)
                             (s : WlSurface.t) : option Size :=
  match WlSurfaceState.buffer state with
  | None => WlSurface.buffer_size_ s
  | Some None => None
  | Some (Some buffer) =>
      if importable buffer
      then Some (stream_size
                   (submit_buffer (imported (WlSurface.this s) buffer)
                      (WlSurface.stream (merge_pending state s))))
      else WlSurface.buffer_size_ s
  end.

(** What it means for every set field of [state] to equal the current value
    of the surface. For the buffer the current value is the buffer size:
    attach none on an unmapped surface, or a buffer after which the stream
    reports the size the surface already has. *)
Definition restates_current {platform : Platform} (state : WlSurfaceState.t) (s : WlSurface.t) : Prop :=
  (WlSurfaceState.offset state = None \/
   WlSurfaceState.offset state = Some (WlSurface.offset_ s)) /\
  (WlSurfaceState.input_shape state = None \/
   WlSurfaceState.input_shape state = Some (WlSurface.input_shape s)) /\
  (WlSurfaceState.scale state = None \/
   WlSurfaceState.scale state = Some (stream_scale (WlSurface.stream s))) /\
  match WlSurfaceState.buffer state with
  | None => True
  | Some None => WlSurface.buffer_size_ s = None
  | Some (Some buffer) =>
      Some (stream_size (submit_buffer (imported (WlSurface.this s) buffer)
                                       (WlSurface.stream s)))
      = WlSurface.buffer_size_ s
  end.

(** A commit the import does not reject: it attaches nothing, attaches none,
    or attaches a buffer the import accepts. *)
Definition accepted {platform : Platform} (state : WlSurfaceState.t) : bool :=
  match WlSurfaceState.buffer state with
  | Some (Some buffer) => importable buffer
  | _ => true
  end.

(** A commit that attaches a buffer the import accepts. *)
Definition attaches_importable {platform : Platform} (state : WlSurfaceState.t) : bool :=
  match WlSurfaceState.buffer state with
  | Some (Some buffer) => importable buffer
  | _ => false
  end.

(** Successive [commit(state)] calls. *)
Fixpoint commits {platform : Platform} (states : list WlSurfaceState.t)
  : WlSurface.Act unit :=
  match states with
  | [] => mret tt
  | state :: rest => WlSurface.commit state;; commits rest
  end.

(** Modelled from the spec: [WlSubsurface] is defined in
    wl_subcompositor.cpp, which is not under src/. Hit-testing "tests
    children" and region accumulation "recurses into children with the
    cumulative offset": the entry of a child forwards both queries to the
    child's surface. *)
Definition subsurface_entry (address : ptr) (child : WlSurface.t) : WlSubsurface :=
  {| subsurface_this := address;
     child_subsurface_at := WlSurface.subsurface_at child;
     child_populate_surface_data := WlSurface.populate_surface_data child |}.

(** ** Requests in sequence *)

(** The calls that fill the pending state: the [wl_surface] requests other
    than commit, and [set_pending_offset], which the subsurface role calls
    when the client positions a subsurface. *)
Inductive Request :=
| request_attach (buffer : option wl_resource) (x y : Z)
| request_damage (x y width height : Z)
| request_damage_buffer (x y width height : Z)
| request_frame (new_callback : wl_resource)
| request_set_opaque_region (region : option wl_resource)
| request_set_input_region (region : option (list Rectangle))
| request_set_buffer_transform (transform : Z)
| request_set_buffer_scale (scale : Z)
| request_set_pending_offset (offset : option Displacement).

Definition handle (request : Request) : WlSurface.Act unit :=
  match request with
  | request_attach buffer x y => WlSurface.attach buffer x y
  | request_damage x y width height =>
      WlSurface.update (WlSurface.damage x y width height)
  | request_damage_buffer x y width height =>
      WlSurface.update (WlSurface.damage_buffer x y width height)
  | request_frame new_callback =>
      WlSurface.update (WlSurface.frame new_callback)
  | request_set_opaque_region region =>
      WlSurface.update (WlSurface.set_opaque_region region)
  | request_set_input_region region =>
      WlSurface.update (WlSurface.set_input_region region)
  | request_set_buffer_transform transform =>
      WlSurface.update (WlSurface.set_buffer_transform transform)
  | request_set_buffer_scale scale =>
      WlSurface.update (WlSurface.set_buffer_scale scale)
  | request_set_pending_offset offset =>
      WlSurface.update (WlSurface.set_pending_offset offset)
  end.

Definition handle_all (requests : list Request) : WlSurface.Act unit :=
  WlSurface.for_each handle requests.

(** What a sequence of requests asks for, field by field. *)
Definition attached (requests : list Request) : list (option wl_resource) :=
  omap (fun request =>
          match request with
          | request_attach buffer _ _ => Some buffer
          | _ => None
          end) requests.

Definition framed (requests : list Request) : list Callback :=
  omap (fun request =>
          match request with
          | request_frame new_callback => Some new_callback
          | _ => None
          end) requests.

Definition scaled (requests : list Request) : list Z :=
  omap (fun request =>
          match request with
          | request_set_buffer_scale scale => Some scale
          | _ => None
          end) requests.

Definition input_regions (requests : list Request)
  : list (option (list Rectangle)) :=
  omap (fun request =>
          match request with
          | request_set_input_region region => Some region
          | _ => None
          end) requests.

Definition positioned (requests : list Request) : list (option Displacement) :=
  omap (fun request =>
          match request with
          | request_set_pending_offset offset => Some offset
          | _ => None
          end) requests.

(** What a run of requests leaves in the pending state [before]. *)
Definition pending_after (requests : list Request) (before after : WlSurfaceState.t)
  : Prop :=
  WlSurfaceState.buffer after
    = from_option Some (WlSurfaceState.buffer before) (last (attached requests)) /\
  WlSurfaceState.scale after
    = from_option Some (WlSurfaceState.scale before) (last (scaled requests)) /\
  WlSurfaceState.offset after
    = from_option id (WlSurfaceState.offset before) (last (positioned requests)) /\
  WlSurfaceState.input_shape after
    = from_option Some (WlSurfaceState.input_shape before)
                  (last (input_regions requests)) /\
  WlSurfaceState.frame_callbacks after
    = WlSurfaceState.frame_callbacks before ++ framed requests /\
  WlSurfaceState.surface_data_invalidated after
    = WlSurfaceState.surface_data_invalidated before.

(** The addresses of the children, in insertion order. *)
Definition addresses (s : WlSurface.t) : list ptr :=
  map subsurface_this (WlSurface.children s).

(** The children that were told of a commit, oldest first. *)
Fixpoint notified (evs : list Event) : list ptr :=
  match evs with
  | [] => []
  | parent_has_committed child :: rest => child :: notified rest
  | _ :: rest => notified rest
  end.

(** The buffers a protocol error was posted on, oldest first. *)
Fixpoint posted_errors (evs : list Event) : list wl_resource :=
  match evs with
  | [] => []
  | wl_resource_post_error buffer _ :: rest => buffer :: posted_errors rest
  | _ :: rest => posted_errors rest
  end.

(** An input rectangle as [populate_surface_data] pushes it: moved by the
    cumulative offset and clipped to the surface. *)
Definition clipped (offset : Displacement) (surface_rect rect : Rectangle)
  : Rectangle :=
  intersection_with
    {| top_left := point_plus (top_left rect) offset; size := size rect |}
    surface_rect.

(** The rectangles a surface itself adds to the accumulated input shape:
    what [populate_surface_data] pushes before it turns to the children. *)
Definition own_input_rectangles (s : WlSurface.t) (parent_offset : Displacement)
  : list Rectangle :=
  (WlSurface.populate_surface_data (WlSurface.with_children [] s) [] []
                                   parent_offset).2.

(** ** Concrete surfaces and collaborators used by the examples *)

Module Fixture.

(** Handle 7 is the shared-memory buffer of the import-rejection example
    (width 4, argb_8888, stride 8); handle 8 is the same buffer with stride
    16; any other handle is not a shared-memory buffer. Every format has 4
    bytes per pixel, the allocator accepts every handle, and the stream
    reports 4x4 after handle 8 and 100x100 after any other buffer. *)
Definition platform : Platform := {|
  wl_shm_buffer_get := fun buffer =>
    if (buffer =? 7)%nat
    then Some {| shm_stride := 8; shm_width := 4;
                 shm_format := WL_SHM_FORMAT_ARGB8888 |}
    else if (buffer =? 8)%nat
    then Some {| shm_stride := 16; shm_width := 4;
                 shm_format := WL_SHM_FORMAT_ARGB8888 |}
    else None;
  MIR_BYTES_PER_PIXEL := fun _ => 4;
  allocator_throws := fun _ => None;
  stream_size := fun st =>
    match last (submitted st) with
    | Some b => if (imported_from b =? 8)%nat
                then {| width := 4; height := 4 |}
                else {| width := 100; height := 100 |}
    | None => Size0
    end
|}.

Definition rect (x0 y0 w h : Z) : Rectangle :=
  {| top_left := {| x := x0; y := y0 |};
     size := {| width := w; height := h |} |}.

(** A freshly created surface at address 1: null role, nothing pending,
    unmapped, scale 1. *)
Definition fresh : WlSurface.t :=
  WlSurface.create 1%nat {| stream_scale := 1; submitted := [] |}.

(** The same surface mapped at 100x100. *)
Definition mapped : WlSurface.t :=
  WlSurface.with_buffer_size_ (Some {| width := 100; height := 100 |}) fresh.

Definition machine (s : WlSurface.t) : WlSurface.Machine :=
  {| WlSurface.surface := s; WlSurface.destroyed := ∅;
     WlSurface.events := [] |}.

(** A pending state that only attaches [buffer] and registers [frames]. *)
Definition attaching (buffer : wl_resource) (frames : list Callback)
  : WlSurfaceState.t :=
  WlSurfaceState.mk (Some (Some buffer)) None None None frames false.

(** A child surface at address 2, mapped at 40x40 and placed at (10,10). *)
Definition child : WlSurface.t :=
  WlSurface.mk 2%nat (role_object 20%nat) WlSurfaceState.empty
               {| dx := 10; dy := 10 |}
               (Some {| width := 40; height := 40 |}) [] None []
               {| stream_scale := 1; submitted := [] |}.

(** A child surface at address 3, mapped at 50x50 and placed at (120,120),
    outside its 100x100 parent. *)
Definition outlying_child : WlSurface.t :=
  WlSurface.mk 3%nat (role_object 30%nat) WlSurfaceState.empty
               {| dx := 120; dy := 120 |}
               (Some {| width := 50; height := 50 |}) [] None []
               {| stream_scale := 1; submitted := [] |}.

(** The hit-testing example: a mapped 100x100 surface whose input region
    covers (0,0)-(100,100), with [child] added to it. *)
Definition parent : WlSurface.t :=
  WlSurface.with_children [subsurface_entry 2%nat child]
    (WlSurface.with_input_shape (Some [rect 0 0 100 100]) mapped).

(** A mapped 100x100 surface whose explicit input region, (0,0)-(200,200),
    reaches beyond its buffer. *)
Definition wide : WlSurface.t :=
  WlSurface.with_input_shape (Some [rect 0 0 200 200]) mapped.

(** The same surface with [outlying_child] added to it. *)
Definition wide_parent : WlSurface.t :=
  WlSurface.with_children [subsurface_entry 3%nat outlying_child] wide.

End Fixture.

(** * Properties *)

(** ** Geometry *)

Lemma contains_true (r : Rectangle) (p : Point) :
  contains r p = true <->
  width (size r) <> 0 /\ height (size r) <> 0 /\
  geom.left r <= x p < geom.right r /\ geom.top r <= y p < geom.bottom r.
Proof.
  unfold contains.
  destruct (Z.eqb_spec (width (size r)) 0) as [Hw|Hw];
    [cbn [orb]; split; [discriminate | tauto] |].
  destruct (Z.eqb_spec (height (size r)) 0) as [Hh|Hh];
    [cbn [orb]; split; [discriminate | tauto] |].
  cbn [orb]. rewrite !andb_true_iff, !Z.leb_le, !Z.ltb_lt. tauto.
Qed.

Lemma contains_intersection_with (r other : Rectangle) (p : Point) :
  contains (intersection_with r other) p = contains r p && contains other p.
Proof.
  apply Bool.eq_iff_eq_true.
  rewrite andb_true_iff, !contains_true.
  unfold intersection_with.
  destruct ((Z.max (geom.left r) (geom.left other) <?
             Z.min (geom.right r) (geom.right other)) &&
            (Z.max (geom.top r) (geom.top other) <?
             Z.min (geom.bottom r) (geom.bottom other))) eqn:E.
  - apply andb_true_iff in E as [E1 E2].
    apply Z.ltb_lt in E1, E2.
    unfold geom.left, geom.right, geom.top, geom.bottom in *.
    cbn [x y width height top_left size]. lia.
  - apply andb_false_iff in E.
    rewrite !Z.ltb_ge in E.
    unfold geom.left, geom.right, geom.top, geom.bottom, Rectangle0, Point0,
      Size0 in *.
    cbn [x y width height top_left size]. lia.
Qed.

Lemma contains_zero_size (p : Point) : contains Rectangle0 p = false.
Proof. reflexivity. Qed.

(** ** Hit-testing *)

Lemma any_rect_hit_true rects surface_rect point :
  WlSurface.any_rect_hit rects surface_rect point = true <->
  exists rect, rect ∈ rects /\
    contains (intersection_with rect surface_rect) point = true.
Proof.
  induction rects as [|rect rest IH]; cbn.
  - split; [discriminate|]. intros (r & Hin & _). inversion Hin.
  - destruct (contains (intersection_with rect surface_rect) point) eqn:Hc.
    + split; [|reflexivity]. intros _. exists rect. split; [constructor|exact Hc].
    + rewrite IH. split.
      * intros (r & Hin & Hr). exists r. split; [by constructor|exact Hr].
      * intros (r & Hin & Hr). inversion Hin; subst; [congruence|].
        exists r. by split.
Qed.

Lemma any_rect_hit_inside rects surface_rect point :
  WlSurface.any_rect_hit rects surface_rect point = true ->
  contains surface_rect point = true.
Proof.
  rewrite any_rect_hit_true. intros (r & _ & Hr).
  rewrite contains_intersection_with in Hr.
  by apply andb_true_iff in Hr as [_ ?].
Qed.

Lemma first_child_at_none subsurfaces point :
  WlSurface.first_child_at subsurfaces point = None <->
  forall c, c ∈ subsurfaces -> child_subsurface_at c point = None.
Proof.
  induction subsurfaces as [|c rest IH]; cbn.
  - split; [|reflexivity]. intros _ c Hin. inversion Hin.
  - destruct (child_subsurface_at c point) eqn:Hc.
    + split; [discriminate|]. intros Hall.
      specialize (Hall c ltac:(constructor)). congruence.
    + rewrite IH. split.
      * intros Hall c' Hin. inversion Hin; subst; [exact Hc|by apply Hall].
      * intros Hall c' Hin. apply Hall. by constructor.
Qed.

Lemma first_child_at_app front back point :
  WlSurface.first_child_at (front ++ back) point =
  match WlSurface.first_child_at front point with
  | Some result => Some result
  | None => WlSurface.first_child_at back point
  end.
Proof.
  induction front as [|c rest IH]; cbn; [reflexivity|].
  by destruct (child_subsurface_at c point).
Qed.

(** The child added last that accepts the point decides, whatever the
    children added before it answer. *)
Lemma first_child_at_topmost older c newer point result :
  (forall c', c' ∈ newer -> child_subsurface_at c' point = None) ->
  child_subsurface_at c point = Some result ->
  WlSurface.first_child_at (rev (older ++ c :: newer)) point = Some result.
Proof.
  intros Hnewer Hc.
  rewrite rev_app_distr. cbn [rev]. rewrite <- app_assoc.
  rewrite first_child_at_app.
  assert (WlSurface.first_child_at (rev newer) point = None) as ->.
  { apply first_child_at_none. intros c' Hin. apply Hnewer.
    apply list_elem_of_In, in_rev. by apply list_elem_of_In. }
  cbn. by rewrite Hc.
Qed.

Lemma subsurface_at_unmapped s point :
  WlSurface.buffer_size_ s = None -> WlSurface.subsurface_at s point = None.
Proof. unfold WlSurface.subsurface_at. by intros ->. Qed.

Lemma subsurface_at_mapped s point buffer_size :
  WlSurface.buffer_size_ s = Some buffer_size ->
  WlSurface.subsurface_at s point =
  let local := point_minus point (WlSurface.offset_ s) in
  let surface_rect := {| top_left := Point0; size := buffer_size |} in
  match WlSurface.first_child_at (rev (WlSurface.children s)) local with
  | Some result => Some result
  | None =>
      if WlSurface.any_rect_hit
           (default [surface_rect] (WlSurface.input_shape s)) surface_rect local
      then Some (WlSurface.this s)
      else None
  end.
Proof. unfold WlSurface.subsurface_at. by intros ->. Qed.

Lemma add_subsurface_appends s child D evs :
  (forall c, c ∈ WlSurface.children s ->
             subsurface_this c <> subsurface_this child) ->
  WlSurface.add_subsurface child
    {| WlSurface.surface := s; WlSurface.destroyed := D;
       WlSurface.events := evs |} =
  WlSurface.Returned tt
    {| WlSurface.surface :=
         WlSurface.with_children (WlSurface.children s ++ [child]) s;
       WlSurface.destroyed := D; WlSurface.events := evs |}.
Proof.
  intros Hfresh.
  unfold WlSurface.add_subsurface, mbind, WlSurface.Act_bind, WlSurface.get.
  cbn [WlSurface.surface].
  assert (existsb
            (fun c => bool_decide (subsurface_this c = subsurface_this child))
            (WlSurface.children s) = false) as ->; [|reflexivity].
  induction (WlSurface.children s) as [|c rest IH]; [reflexivity|].
  cbn [existsb]. rewrite bool_decide_eq_false_2.
  - apply IH. intros c' Hin. apply Hfresh. by constructor.
  - apply Hfresh. constructor.
Qed.

(** C6. [subsurface_at] answers nothing for an unmapped surface. For a mapped
    one the point is first moved into local coordinates (the surface's offset
    is subtracted); the children are asked from the one added last to the one
    added first ([add_subsurface] appends, the loop runs backwards), so the
    child added last that accepts the point decides; only when no child
    accepts it, the point is tested against the input rectangles (the
    explicit ones, or the whole mapped rectangle when none was set), each
    clipped to the mapped rectangle: a hit answers the surface itself, no hit
    answers nothing. *)
Theorem subsurface_at_hit_testing (s : WlSurface.t) (point : Point) :
  let local := point_minus point (WlSurface.offset_ s) in
  (WlSurface.buffer_size_ s = None -> WlSurface.subsurface_at s point = None) /\
  (forall buffer_size,
     WlSurface.buffer_size_ s = Some buffer_size ->
     let surface_rect := {| top_left := Point0; size := buffer_size |} in
     let region := default [surface_rect] (WlSurface.input_shape s) in
     (forall older c newer result,
        WlSurface.children s = older ++ c :: newer ->
        (forall c', c' ∈ newer -> child_subsurface_at c' local = None) ->
        child_subsurface_at c local = Some result ->
        WlSurface.subsurface_at s point = Some result) /\
     ((forall c, c ∈ WlSurface.children s -> child_subsurface_at c local = None) ->
      ((exists rect, rect ∈ region /\
          contains (intersection_with rect surface_rect) local = true) /\
       WlSurface.subsurface_at s point = Some (WlSurface.this s)) \/
      ((forall rect, rect ∈ region ->
          contains (intersection_with rect surface_rect) local = false) /\
       WlSurface.subsurface_at s point = None))) /\
  (forall child D evs,
     (forall c, c ∈ WlSurface.children s ->
                subsurface_this c <> subsurface_this child) ->
     WlSurface.add_subsurface child
       {| WlSurface.surface := s; WlSurface.destroyed := D;
          WlSurface.events := evs |} =
     WlSurface.Returned tt
       {| WlSurface.surface :=
            WlSurface.with_children (WlSurface.children s ++ [child]) s;
          WlSurface.destroyed := D; WlSurface.events := evs |}).
Proof.
  intros local. split; [apply subsurface_at_unmapped|]. split.
  - intros buffer_size Hmapped surface_rect region. split.
    + intros older c newer result Hchildren Hnewer Hc.
      rewrite (subsurface_at_mapped _ _ _ Hmapped). cbn zeta.
      fold local. rewrite Hchildren.
      by rewrite (first_child_at_topmost older c newer local result).
    + intros Hnone.
      rewrite (subsurface_at_mapped _ _ _ Hmapped). cbn zeta.
      fold local surface_rect region.
      assert (WlSurface.first_child_at (rev (WlSurface.children s)) local
              = None) as ->.
      { apply first_child_at_none. intros c Hin. apply Hnone.
        apply list_elem_of_In, in_rev. by apply list_elem_of_In. }
      destruct (WlSurface.any_rect_hit region surface_rect local) eqn:Hhit.
      * left. split; [|reflexivity]. by apply any_rect_hit_true.
      * right. split; [|reflexivity]. intros rect Hin.
        destruct (contains (intersection_with rect surface_rect) local) eqn:Hc;
          [|reflexivity].
        assert (WlSurface.any_rect_hit region surface_rect local = true)
          as Hyes by (apply any_rect_hit_true; eauto).
        congruence.
  - apply add_subsurface_appends.
Qed.

(** C10, as the code has it. A point of a mapped surface that lies outside
    the mapped rectangle never hits the surface itself, whatever explicit
    input rectangles were set: every input rectangle is clipped to the mapped
    rectangle before the test. The answer is the one the children give, and
    nothing when no child accepts the point. *)
Theorem subsurface_at_outside_buffer
    (s : WlSurface.t) (point : Point) (buffer_size : Size) :
  let local := point_minus point (WlSurface.offset_ s) in
  let surface_rect := {| top_left := Point0; size := buffer_size |} in
  WlSurface.buffer_size_ s = Some buffer_size ->
  contains surface_rect local = false ->
  (forall rect, contains (intersection_with rect surface_rect) local = false) /\
  WlSurface.subsurface_at s point =
    WlSurface.first_child_at (rev (WlSurface.children s)) local /\
  ((forall c, c ∈ WlSurface.children s -> child_subsurface_at c local = None) ->
   WlSurface.subsurface_at s point = None).
Proof.
  intros local surface_rect Hmapped Houtside.
  assert (WlSurface.subsurface_at s point =
          WlSurface.first_child_at (rev (WlSurface.children s)) local) as Hat.
  { rewrite (subsurface_at_mapped _ _ _ Hmapped). cbn zeta.
    fold local surface_rect.
    destruct (WlSurface.first_child_at (rev (WlSurface.children s)) local);
      [reflexivity|].
    destruct (WlSurface.any_rect_hit _ surface_rect local) eqn:Hhit;
      [|reflexivity].
    apply any_rect_hit_inside in Hhit. congruence. }
  split; [|split].
  - intros rect. rewrite contains_intersection_with, Houtside.
    apply andb_false_r.
  - exact Hat.
  - intros Hnone. rewrite Hat. apply first_child_at_none.
    intros c Hin. apply Hnone.
    apply list_elem_of_In, in_rev. by apply list_elem_of_In.
Qed.

Lemma subsurface_at_hit_testing_witness :
  WlSurface.subsurface_at Fixture.parent {| x := 20; y := 20 |} = Some 2%nat /\
  WlSurface.subsurface_at Fixture.fresh {| x := 20; y := 20 |} = None.
Proof.
  destruct (subsurface_at_hit_testing Fixture.parent {| x := 20; y := 20 |})
    as (_ & Hmapped & _).
  destruct (Hmapped {| width := 100; height := 100 |} eq_refl) as [Htopmost _].
  split.
  - apply (Htopmost [] (subsurface_entry 2%nat Fixture.child) [] 2%nat).
    + reflexivity.
    + intros c' Hin. by apply elem_of_nil in Hin.
    + reflexivity.
  - by apply (subsurface_at_hit_testing Fixture.fresh {| x := 20; y := 20 |}).
Defined.

Lemma subsurface_at_outside_buffer_witness :
  contains (Fixture.rect 0 0 200 200) {| x := 150; y := 150 |} = true /\
  WlSurface.subsurface_at Fixture.wide {| x := 150; y := 150 |} = None.
Proof.
  split; [reflexivity|].
  destruct (subsurface_at_outside_buffer Fixture.wide {| x := 150; y := 150 |}
              {| width := 100; height := 100 |} eq_refl eq_refl)
    as (_ & _ & Hnone).
  apply Hnone. intros c Hin. by apply elem_of_nil in Hin.
Defined.

(** C10 as stated fails when a child lies outside its parent's buffer: the
    point (150,150) is inside the explicit input rectangle (0,0)-(200,200) and
    outside the 100x100 mapped rectangle, and [subsurface_at] answers the
    child at address 3. *)
Lemma subsurface_at_outside_buffer_child_hit :
  WlSurface.input_shape Fixture.wide_parent = Some [Fixture.rect 0 0 200 200] /\
  WlSurface.buffer_size_ Fixture.wide_parent
    = Some {| width := 100; height := 100 |} /\
  contains (Fixture.rect 0 0 200 200) {| x := 150; y := 150 |} = true /\
  contains (Fixture.rect 0 0 100 100) {| x := 150; y := 150 |} = false /\
  WlSurface.subsurface_at Fixture.wide_parent {| x := 150; y := 150 |}
    = Some 3%nat.
Proof. repeat split. Qed.

(** ** Running the actions *)

Lemma bind_run {A B} (c : WlSurface.Act A) (k : A -> WlSurface.Act B) m :
  (c ≫= k) m =
  match c m with
  | WlSurface.Returned a m' => k a m'
  | WlSurface.Thrown e m' => WlSurface.Thrown e m'
  end.
Proof. reflexivity. Qed.

Lemma ret_run {A} (a : A) m :
  (mret a : WlSurface.Act A) m = WlSurface.Returned a m.
Proof. reflexivity. Qed.

Lemma for_each_emit {A} (event_of : A -> Event) (l : list A) s D evs :
  WlSurface.for_each (fun a => WlSurface.emit (event_of a)) l
    {| WlSurface.surface := s; WlSurface.destroyed := D;
       WlSurface.events := evs |} =
  WlSurface.Returned tt
    {| WlSurface.surface := s; WlSurface.destroyed := D;
       WlSurface.events := evs ++ map event_of l |}.
Proof.
  revert evs. induction l as [|a rest IH]; intros evs; cbn [WlSurface.for_each map].
  - rewrite ret_run. by rewrite app_nil_r.
  - rewrite bind_run. unfold WlSurface.emit at 1.
    cbn [WlSurface.surface WlSurface.destroyed WlSurface.events].
    rewrite IH. by rewrite <- app_assoc.
Qed.

Lemma send_done_loop frames s D evs :
  WlSurface.for_each
    (fun frame =>
       dead ← WlSurface.is_destroyed frame;
       if negb dead
       then WlSurface.emit (send_done_event frame);;
            WlSurface.destroy_wayland_object frame
       else mret tt)
    frames
    {| WlSurface.surface := s; WlSurface.destroyed := D;
       WlSurface.events := evs |} =
  WlSurface.Returned tt
    {| WlSurface.surface := s;
       WlSurface.destroyed := (deliver frames D).2;
       WlSurface.events := evs ++ map send_done_event (deliver frames D).1 |}.
Proof.
  revert D evs.
  induction frames as [|frame rest IH]; intros D evs;
    cbn [WlSurface.for_each deliver].
  - rewrite ret_run. cbn [fst snd map]. by rewrite app_nil_r.
  - rewrite bind_run, bind_run. unfold WlSurface.is_destroyed at 1.
    cbn [WlSurface.surface WlSurface.destroyed WlSurface.events].
    destruct (decide (frame ∈ D)) as [Hdead|Hlive];
      [rewrite !(bool_decide_eq_true_2 _ Hdead)
      |rewrite !(bool_decide_eq_false_2 _ Hlive)]; cbn [negb].
    + rewrite ret_run. apply IH.
    + rewrite bind_run.
      unfold WlSurface.emit at 1, WlSurface.destroy_wayland_object at 1.
      cbn [WlSurface.surface WlSurface.destroyed WlSurface.events].
      rewrite IH.
      destruct (deliver rest ({[frame]} ∪ D)) as [sent D'].
      cbn [fst snd map]. by rewrite <- app_assoc.
Qed.

Lemma send_frame_callbacks_run s D evs :
  WlSurface.send_frame_callbacks
    {| WlSurface.surface := s; WlSurface.destroyed := D;
       WlSurface.events := evs |} =
  WlSurface.Returned tt
    {| WlSurface.surface := WlSurface.with_frame_callbacks [] s;
       WlSurface.destroyed := (deliver (WlSurface.frame_callbacks s) D).2;
       WlSurface.events :=
         evs ++ map send_done_event (deliver (WlSurface.frame_callbacks s) D).1 |}.
Proof.
  unfold WlSurface.send_frame_callbacks.
  rewrite bind_run. unfold WlSurface.get at 1. cbn [WlSurface.surface].
  rewrite bind_run, send_done_loop. reflexivity.
Qed.

Lemma update_run f m :
  WlSurface.update f m =
  WlSurface.Returned tt
    {| WlSurface.surface := f (WlSurface.surface m);
       WlSurface.destroyed := WlSurface.destroyed m;
       WlSurface.events := WlSurface.events m |}.
Proof. reflexivity. Qed.

Lemma get_run m : WlSurface.get m = WlSurface.Returned (WlSurface.surface m) m.
Proof. reflexivity. Qed.

Lemma emit_run e m :
  WlSurface.emit e m =
  WlSurface.Returned tt
    {| WlSurface.surface := WlSurface.surface m;
       WlSurface.destroyed := WlSurface.destroyed m;
       WlSurface.events := WlSurface.events m ++ [e] |}.
Proof. reflexivity. Qed.

Lemma throw_run {A} e m : WlSurface.throw (A := A) e m = WlSurface.Thrown e m.
Proof. reflexivity. Qed.

Ltac steps :=
  repeat (first [ rewrite bind_run | rewrite ret_run | rewrite update_run
                | rewrite get_run | rewrite emit_run | rewrite throw_run
                | rewrite send_frame_callbacks_run | rewrite for_each_emit ];
          cbn [WlSurface.surface WlSurface.destroyed WlSurface.events]).

(** ** [commit(state)], branch by branch *)

Section CommitBranches.
Context {platform : Platform}.

Lemma merge_pending_projections state s :
  WlSurface.offset_ (merge_pending state s)
    = default (WlSurface.offset_ s) (WlSurfaceState.offset state) /\
  WlSurface.input_shape (merge_pending state s)
    = default (WlSurface.input_shape s) (WlSurfaceState.input_shape state) /\
  stream_scale (WlSurface.stream (merge_pending state s))
    = default (stream_scale (WlSurface.stream s)) (WlSurfaceState.scale state) /\
  submitted (WlSurface.stream (merge_pending state s))
    = submitted (WlSurface.stream s) /\
  WlSurface.buffer_size_ (merge_pending state s) = WlSurface.buffer_size_ s /\
  WlSurface.frame_callbacks (merge_pending state s)
    = WlSurface.frame_callbacks s ++ WlSurfaceState.frame_callbacks state /\
  WlSurface.children (merge_pending state s) = WlSurface.children s /\
  WlSurface.this (merge_pending state s) = WlSurface.this s /\
  WlSurface.role (merge_pending state s) = WlSurface.role s /\
  WlSurface.pending (merge_pending state s) = WlSurface.pending s.
Proof.
  unfold merge_pending.
  destruct (WlSurfaceState.offset state), (WlSurfaceState.input_shape state),
    (WlSurfaceState.scale state); cbn; repeat split; reflexivity.
Qed.

Lemma commit_no_buffer state s D evs :
  WlSurfaceState.buffer state = None ->
  WlSurface.commit state
    {| WlSurface.surface := s; WlSurface.destroyed := D;
       WlSurface.events := evs |} =
  let s' := merge_pending state s in
  let sent := deliver (WlSurface.frame_callbacks s') D in
  WlSurface.Returned state
    {| WlSurface.surface := WlSurface.with_frame_callbacks [] s';
       WlSurface.destroyed := sent.2;
       WlSurface.events :=
         (evs ++ map send_done_event sent.1) ++ notify_children s |}.
Proof.
  intros Hbuffer. unfold WlSurface.commit, merge_pending, notify_children.
  rewrite Hbuffer.
  destruct (WlSurfaceState.offset state), (WlSurfaceState.input_shape state),
    (WlSurfaceState.scale state); steps; reflexivity.
Qed.

Lemma commit_attach_none state s D evs :
  WlSurfaceState.buffer state = Some None ->
  WlSurface.commit state
    {| WlSurface.surface := s; WlSurface.destroyed := D;
       WlSurface.events := evs |} =
  let s' := WlSurface.with_buffer_size_ None (merge_pending state s) in
  let sent := deliver (WlSurface.frame_callbacks s') D in
  WlSurface.Returned state
    {| WlSurface.surface := WlSurface.with_frame_callbacks [] s';
       WlSurface.destroyed := sent.2;
       WlSurface.events :=
         (evs ++ map send_done_event sent.1) ++ notify_children s |}.
Proof.
  intros Hbuffer. unfold WlSurface.commit, merge_pending, notify_children.
  rewrite Hbuffer.
  destruct (WlSurfaceState.offset state), (WlSurfaceState.input_shape state),
    (WlSurfaceState.scale state); steps; reflexivity.
Qed.

Lemma commit_invalid_stride state buffer s D evs :
  WlSurfaceState.buffer state = Some (Some buffer) ->
  invalid_stride buffer = true ->
  WlSurface.commit state
    {| WlSurface.surface := s; WlSurface.destroyed := D;
       WlSurface.events := evs |} =
  WlSurface.Thrown (runtime_error "Buffer has invalid stride")
    {| WlSurface.surface := merge_pending state s;
       WlSurface.destroyed := D;
       WlSurface.events :=
         evs ++ [wl_resource_post_error buffer WL_SHM_ERROR_INVALID_STRIDE] |}.
Proof.
  intros Hbuffer Hstride.
  unfold WlSurface.commit, merge_pending, WlSurface.import_shm.
  unfold invalid_stride in Hstride. rewrite Hbuffer.
  destruct (wl_shm_buffer_get buffer) as [shm_buffer|]; [|discriminate].
  destruct (WlSurfaceState.offset state), (WlSurfaceState.input_shape state),
    (WlSurfaceState.scale state); steps; rewrite Hstride; steps; reflexivity.
Qed.

Lemma commit_allocator_throws state buffer e s D evs :
  WlSurfaceState.buffer state = Some (Some buffer) ->
  invalid_stride buffer = false ->
  allocator_throws buffer = Some e ->
  WlSurface.commit state
    {| WlSurface.surface := s; WlSurface.destroyed := D;
       WlSurface.events := evs |} =
  WlSurface.Thrown e
    {| WlSurface.surface := merge_pending state s;
       WlSurface.destroyed := D;
       WlSurface.events := evs |}.
Proof.
  intros Hbuffer Hstride Hthrows.
  unfold WlSurface.commit, merge_pending, WlSurface.import_shm,
    WlSurface.import_resource.
  unfold invalid_stride in Hstride. rewrite Hbuffer.
  destruct (wl_shm_buffer_get buffer) as [shm_buffer|];
  destruct (WlSurfaceState.offset state), (WlSurfaceState.input_shape state),
    (WlSurfaceState.scale state); steps;
    rewrite ?Hstride, ?Hthrows; steps; reflexivity.
Qed.

Lemma commit_imports state buffer s D evs :
  WlSurfaceState.buffer state = Some (Some buffer) ->
  importable buffer = true ->
  WlSurface.commit state
    {| WlSurface.surface := s; WlSurface.destroyed := D;
       WlSurface.events := evs |} =
  let s' := merge_pending state s in
  let stream' :=
    submit_buffer (imported (WlSurface.this s) buffer) (WlSurface.stream s') in
  let new_buffer_size := stream_size stream' in
  WlSurface.Returned
    (if bool_decide (WlSurface.input_shape s' = None) &&
        bool_decide (Some new_buffer_size <> WlSurface.buffer_size_ s)
     then WlSurfaceState.invalidate_surface_data state
     else state)
    {| WlSurface.surface :=
         WlSurface.with_buffer_size_ (Some new_buffer_size)
           (WlSurface.with_stream stream' s');
       WlSurface.destroyed := D;
       WlSurface.events := evs ++ notify_children s |}.
Proof.
  intros Hbuffer Himportable.
  apply andb_true_iff in Himportable as [Hstride Haccepts].
  apply negb_true_iff in Hstride. apply bool_decide_eq_true_1 in Haccepts.
  unfold WlSurface.commit, merge_pending, notify_children,
    WlSurface.import_shm, WlSurface.import_resource, imported.
  unfold invalid_stride in Hstride. rewrite Hbuffer.
  destruct (wl_shm_buffer_get buffer) as [shm_buffer|];
  destruct (WlSurfaceState.offset state), (WlSurfaceState.input_shape state),
    (WlSurfaceState.scale state); steps;
    rewrite ?Hstride, ?Haccepts; steps; reflexivity.
Qed.

End CommitBranches.

(** ** Frame callbacks *)

Lemma list_filter_iff_in {A} (P Q : A -> Prop)
    `{!forall x, Decision (P x)} `{!forall x, Decision (Q x)} (l : list A) :
  (forall x, x ∈ l -> P x <-> Q x) -> filter P l = filter Q l.
Proof.
  induction l as [|a rest IH]; intros Hiff; [reflexivity|].
  rewrite !filter_cons.
  assert (filter P rest = filter Q rest) as ->.
  { apply IH. intros x Hin. apply Hiff. by constructor. }
  specialize (Hiff a ltac:(constructor)).
  destruct (decide (P a)), (decide (Q a)); tauto.
Qed.

(** Without repeats in the list, [deliver] sends done to the callbacks whose
    flag is down, in the order of the list. *)
Lemma deliver_live (frames : list wl_resource) (flags : gset wl_resource) :
  NoDup frames ->
  (deliver frames flags).1 = filter (fun frame => frame ∉ flags) frames.
Proof.
  revert flags. induction frames as [|frame rest IH]; intros flags Hnodup;
    [reflexivity|].
  apply NoDup_cons in Hnodup as [Hfresh Hnodup]. cbn [deliver].
  destruct (decide (frame ∈ flags)) as [Hdead|Hlive].
  - rewrite (bool_decide_eq_true_2 _ Hdead).
    rewrite filter_cons_False by tauto. by apply IH.
  - rewrite (bool_decide_eq_false_2 _ Hlive).
    rewrite filter_cons_True by exact Hlive.
    specialize (IH ({[frame]} ∪ flags) Hnodup).
    destruct (deliver rest ({[frame]} ∪ flags)) as [sent flags'].
    cbn [fst] in *. rewrite IH. f_equal.
    apply list_filter_iff_in. intros c Hin.
    rewrite not_elem_of_union, not_elem_of_singleton.
    split; [tauto|]. intros Hc. split; [|exact Hc]. by intros ->.
Qed.

Lemma done_frames_app evs1 evs2 :
  done_frames (evs1 ++ evs2) = done_frames evs1 ++ done_frames evs2.
Proof.
  induction evs1 as [|e rest IH]; [reflexivity|].
  destruct e; cbn [done_frames app]; rewrite IH; reflexivity.
Qed.

Lemma done_frames_sent frames :
  done_frames (map send_done_event frames) = frames.
Proof. induction frames as [|f rest IH]; cbn; [|rewrite IH]; reflexivity. Qed.

Lemma done_frames_notify s : done_frames (notify_children s) = [].
Proof.
  unfold notify_children.
  induction (WlSurface.children s) as [|c rest IH]; cbn; [reflexivity|exact IH].
Qed.

(** ** The commit *)

Section CommitProperties.
Context {platform : Platform}.

Lemma commit_rejects state buffer s D evs :
  WlSurfaceState.buffer state = Some (Some buffer) ->
  importable buffer = false ->
  exists e evs',
    WlSurface.commit state
      {| WlSurface.surface := s; WlSurface.destroyed := D;
         WlSurface.events := evs |} =
    WlSurface.Thrown e
      {| WlSurface.surface := merge_pending state s;
         WlSurface.destroyed := D;
         WlSurface.events := evs ++ evs' |} /\
    done_frames evs' = [].
Proof.
  intros Hbuffer Hrejected. unfold importable in Hrejected.
  destruct (invalid_stride buffer) eqn:Hstride.
  - eexists _, [_].
    split; [apply (commit_invalid_stride _ buffer); assumption|reflexivity].
  - cbn [negb andb] in Hrejected. apply bool_decide_eq_false_1 in Hrejected.
    destruct (allocator_throws buffer) as [e|] eqn:Hthrows; [|done].
    exists e, []. rewrite app_nil_r.
    split; [apply (commit_allocator_throws _ buffer); assumption|reflexivity].
Qed.

Lemma commit_current_state state m :
  CurrentState (WlSurface.surface (WlSurface.machine_of (WlSurface.commit state m))) =
  (buffer_size_after state (WlSurface.surface m),
   default (WlSurface.offset_ (WlSurface.surface m)) (WlSurfaceState.offset state),
   default (WlSurface.input_shape (WlSurface.surface m))
           (WlSurfaceState.input_shape state),
   default (stream_scale (WlSurface.stream (WlSurface.surface m)))
           (WlSurfaceState.scale state)).
Proof.
  destruct m as [s D evs]. cbn [WlSurface.surface].
  destruct (merge_pending_projections state s)
    as (Hoffset & Hinput & Hscale & _ & Hsize & _).
  unfold buffer_size_after, CurrentState.
  destruct (WlSurfaceState.buffer state) as [[buffer|]|] eqn:Hbuffer.
  - destruct (importable buffer) eqn:Himportable.
    + rewrite (commit_imports _ _ _ _ _ Hbuffer Himportable). cbn.
      by rewrite Hoffset, Hinput, Hscale.
    + destruct (commit_rejects _ _ s D evs Hbuffer Himportable)
        as (e & evs' & -> & _). cbn.
      by rewrite Hoffset, Hinput, Hscale, Hsize.
  - rewrite (commit_attach_none _ _ _ _ Hbuffer). cbn.
    by rewrite Hoffset, Hinput, Hscale.
  - rewrite (commit_no_buffer _ _ _ _ Hbuffer). cbn.
    by rewrite Hoffset, Hinput, Hscale, Hsize.
Qed.

Lemma commit_submitted state m :
  submitted (WlSurface.stream
    (WlSurface.surface (WlSurface.machine_of (WlSurface.commit state m)))) =
  submitted (WlSurface.stream (WlSurface.surface m)) ++
  match WlSurfaceState.buffer state with
  | Some (Some buffer) =>
      if importable buffer
      then [imported (WlSurface.this (WlSurface.surface m)) buffer]
      else []
  | _ => []
  end.
Proof.
  destruct m as [s D evs]. cbn [WlSurface.surface].
  destruct (merge_pending_projections state s)
    as (_ & _ & _ & Hsubmitted & _).
  destruct (WlSurfaceState.buffer state) as [[buffer|]|] eqn:Hbuffer.
  - destruct (importable buffer) eqn:Himportable.
    + rewrite (commit_imports _ _ _ _ _ Hbuffer Himportable). cbn.
      by rewrite Hsubmitted.
    + destruct (commit_rejects _ _ s D evs Hbuffer Himportable)
        as (e & evs' & -> & _). cbn.
      by rewrite Hsubmitted, app_nil_r.
  - rewrite (commit_attach_none _ _ _ _ Hbuffer). cbn.
    by rewrite Hsubmitted, app_nil_r.
  - rewrite (commit_no_buffer _ _ _ _ Hbuffer). cbn.
    by rewrite Hsubmitted, app_nil_r.
Qed.

Lemma commit_pending_run s D evs :
  WlSurface.commit_pending
    {| WlSurface.surface := s; WlSurface.destroyed := D;
       WlSurface.events := evs |} =
  WlSurface.dispatch_commit (pending_to_commit s)
    {| WlSurface.surface := WlSurface.with_pending WlSurfaceState.empty s;
       WlSurface.destroyed := D; WlSurface.events := evs |}.
Proof.
  unfold WlSurface.commit_pending, pending_to_commit.
  rewrite bind_run, get_run. cbn [WlSurface.surface].
  destruct (bool_decide (WlSurfaceState.offset (WlSurface.pending s)
                         = Some (WlSurface.offset_ s))); steps;
  cbn [WlSurface.with_pending WlSurface.pending WlSurface.input_shape
       WlSurface.offset_];
  match goal with |- context [bool_decide ?P] => destruct (bool_decide P) end;
  steps; reflexivity.
Qed.

Lemma dispatch_commit_null state m :
  WlSurface.role (WlSurface.surface m) = null_role ->
  WlSurface.dispatch_commit state m = WlSurface.NullWlSurfaceRole_commit state m.
Proof.
  intros Hrole. unfold WlSurface.dispatch_commit.
  rewrite bind_run, get_run. by rewrite Hrole.
Qed.

Lemma dispatch_commit_role state r s D evs :
  WlSurface.role s = role_object r ->
  WlSurface.dispatch_commit state
    {| WlSurface.surface := s; WlSurface.destroyed := D;
       WlSurface.events := evs |} =
  WlSurface.Returned tt
    {| WlSurface.surface := s; WlSurface.destroyed := D;
       WlSurface.events := evs ++ [role_commit r state] |}.
Proof.
  intros Hrole. unfold WlSurface.dispatch_commit.
  rewrite bind_run, get_run. cbn [WlSurface.surface]. by rewrite Hrole.
Qed.

Lemma NullWlSurfaceRole_commit_machine state m :
  WlSurface.machine_of (WlSurface.NullWlSurfaceRole_commit state m) =
  WlSurface.machine_of (WlSurface.commit state m).
Proof.
  unfold WlSurface.NullWlSurfaceRole_commit. rewrite bind_run.
  by destruct (WlSurface.commit state m).
Qed.

Lemma commit_preserves state m :
  let s := WlSurface.surface m in
  let s' := WlSurface.surface (WlSurface.machine_of (WlSurface.commit state m)) in
  WlSurface.pending s' = WlSurface.pending s /\
  WlSurface.role s' = WlSurface.role s /\
  WlSurface.this s' = WlSurface.this s /\
  WlSurface.children s' = WlSurface.children s.
Proof.
  destruct m as [s D evs]. cbn [WlSurface.surface].
  destruct (merge_pending_projections state s)
    as (_ & _ & _ & _ & _ & _ & Hchildren & Hthis & Hrole & Hpending).
  destruct (WlSurfaceState.buffer state) as [[buffer|]|] eqn:Hbuffer.
  - destruct (importable buffer) eqn:Himportable.
    + rewrite (commit_imports _ _ _ _ _ Hbuffer Himportable). cbn. tauto.
    + destruct (commit_rejects _ _ s D evs Hbuffer Himportable)
        as (e & evs' & -> & _). cbn. tauto.
  - rewrite (commit_attach_none _ _ _ _ Hbuffer). cbn. tauto.
  - rewrite (commit_no_buffer _ _ _ _ Hbuffer). cbn. tauto.
Qed.

Lemma pending_to_commit_projections s :
  let pending := WlSurface.pending s in
  default (WlSurface.offset_ s) (WlSurfaceState.offset (pending_to_commit s))
    = default (WlSurface.offset_ s) (WlSurfaceState.offset pending) /\
  default (WlSurface.input_shape s)
          (WlSurfaceState.input_shape (pending_to_commit s))
    = default (WlSurface.input_shape s) (WlSurfaceState.input_shape pending) /\
  WlSurfaceState.scale (pending_to_commit s) = WlSurfaceState.scale pending /\
  WlSurfaceState.buffer (pending_to_commit s) = WlSurfaceState.buffer pending /\
  WlSurfaceState.frame_callbacks (pending_to_commit s)
    = WlSurfaceState.frame_callbacks pending /\
  WlSurfaceState.surface_data_invalidated (pending_to_commit s)
    = WlSurfaceState.surface_data_invalidated pending.
Proof.
  unfold pending_to_commit.
  destruct (decide (WlSurfaceState.offset (WlSurface.pending s)
                    = Some (WlSurface.offset_ s))) as [Hoffset|Hoffset];
    [rewrite (bool_decide_eq_true_2 _ Hoffset)
    |rewrite (bool_decide_eq_false_2 _ Hoffset)];
  cbn [WlSurfaceState.with_offset WlSurfaceState.input_shape];
  (destruct (decide (WlSurfaceState.input_shape (WlSurface.pending s)
                     = Some (WlSurface.input_shape s))) as [Hinput|Hinput];
    [rewrite (bool_decide_eq_true_2 _ Hinput)
    |rewrite (bool_decide_eq_false_2 _ Hinput)]);
  cbn; rewrite ?Hoffset, ?Hinput; cbn; repeat split; reflexivity.
Qed.

End CommitProperties.

(** * The claims about the commit *)

Section CommitClaims.
Context {platform : Platform}.

Lemma commit_pending_current_state m :
  WlSurface.role (WlSurface.surface m) = null_role ->
  let s := WlSurface.surface m in
  let s' := WlSurface.surface (WlSurface.machine_of (WlSurface.commit_pending m)) in
  CurrentState s' =
    (buffer_size_after (pending_to_commit s)
       (WlSurface.with_pending WlSurfaceState.empty s),
     default (WlSurface.offset_ s) (WlSurfaceState.offset (WlSurface.pending s)),
     default (WlSurface.input_shape s)
             (WlSurfaceState.input_shape (WlSurface.pending s)),
     default (stream_scale (WlSurface.stream s))
             (WlSurfaceState.scale (WlSurface.pending s))) /\
  WlSurface.pending s' = WlSurfaceState.empty.
Proof.
  destruct m as [s D evs]. cbn [WlSurface.surface]. intros Hrole. cbn zeta.
  rewrite commit_pending_run, dispatch_commit_null by exact Hrole.
  rewrite NullWlSurfaceRole_commit_machine.
  destruct (pending_to_commit_projections s)
    as (Hoffset & Hinput & Hscale & _).
  split.
  - rewrite commit_current_state. cbn [WlSurface.surface].
    cbn [WlSurface.with_pending WlSurface.offset_ WlSurface.input_shape
         WlSurface.stream].
    by rewrite Hoffset, Hinput, Hscale.
  - by rewrite (proj1 (commit_preserves _ _)).
Qed.

(** C1. [commit(state)] merges the state into the surface in one step, field
    by field: offset, input region and scale take the value the state sets
    and keep their value when the state leaves them unset; the buffer size
    and the stream's buffers are left alone when no buffer was attached, the
    surface is unmapped on attach none, and an accepted buffer is submitted
    and its stream size recorded (a rejected one leaves buffer size and stream
    as they were). The same holds for [commit()] on a surface with the null
    role, which also clears the pending state, and [update_from] merges two
    pending states by the same rule. *)
Theorem commit_merges_pending_into_current
    (state : WlSurfaceState.t) (m : WlSurface.Machine) :
  let s := WlSurface.surface m in
  let s' := WlSurface.surface (WlSurface.machine_of (WlSurface.commit state m)) in
  WlSurface.offset_ s'
    = default (WlSurface.offset_ s) (WlSurfaceState.offset state) /\
  WlSurface.input_shape s'
    = default (WlSurface.input_shape s) (WlSurfaceState.input_shape state) /\
  stream_scale (WlSurface.stream s')
    = default (stream_scale (WlSurface.stream s)) (WlSurfaceState.scale state) /\
  match WlSurfaceState.buffer state with
  | None =>
      WlSurface.buffer_size_ s' = WlSurface.buffer_size_ s /\
      submitted (WlSurface.stream s') = submitted (WlSurface.stream s)
  | Some None =>
      WlSurface.buffer_size_ s' = None /\
      submitted (WlSurface.stream s') = submitted (WlSurface.stream s)
  | Some (Some buffer) =>
      if importable buffer
      then (exists state' m',
              WlSurface.commit state m = WlSurface.Returned state' m') /\
           submitted (WlSurface.stream s')
             = submitted (WlSurface.stream s)
               ++ [imported (WlSurface.this s) buffer] /\
           WlSurface.buffer_size_ s'
             = Some (stream_size (WlSurface.stream s'))
      else (exists e m', WlSurface.commit state m = WlSurface.Thrown e m') /\
           WlSurface.buffer_size_ s' = WlSurface.buffer_size_ s /\
           submitted (WlSurface.stream s') = submitted (WlSurface.stream s)
  end /\
  (WlSurface.role s = null_role ->
   let s'' :=
     WlSurface.surface (WlSurface.machine_of (WlSurface.commit_pending m)) in
   WlSurface.offset_ s''
     = default (WlSurface.offset_ s)
               (WlSurfaceState.offset (WlSurface.pending s)) /\
   WlSurface.input_shape s''
     = default (WlSurface.input_shape s)
               (WlSurfaceState.input_shape (WlSurface.pending s)) /\
   stream_scale (WlSurface.stream s'')
     = default (stream_scale (WlSurface.stream s))
               (WlSurfaceState.scale (WlSurface.pending s)) /\
   (WlSurfaceState.buffer (WlSurface.pending s) = None ->
    WlSurface.buffer_size_ s'' = WlSurface.buffer_size_ s) /\
   WlSurface.pending s'' = WlSurfaceState.empty) /\
  (forall source self,
     let merged := WlSurfaceState.update_from source self in
     WlSurfaceState.buffer merged
       = from_option Some (WlSurfaceState.buffer self)
                     (WlSurfaceState.buffer source) /\
     WlSurfaceState.scale merged
       = from_option Some (WlSurfaceState.scale self)
                     (WlSurfaceState.scale source) /\
     WlSurfaceState.offset merged
       = from_option Some (WlSurfaceState.offset self)
                     (WlSurfaceState.offset source) /\
     WlSurfaceState.input_shape merged
       = from_option Some (WlSurfaceState.input_shape self)
                     (WlSurfaceState.input_shape source) /\
     WlSurfaceState.frame_callbacks merged
       = WlSurfaceState.frame_callbacks self
         ++ WlSurfaceState.frame_callbacks source).
Proof.
  intros s s'.
  pose proof (commit_current_state state m) as Hcurrent.
  pose proof (commit_submitted state m) as Hsubmitted.
  fold s s' in Hcurrent, Hsubmitted.
  unfold CurrentState, buffer_size_after in Hcurrent.
  injection Hcurrent as Hsize Hoffset Hinput Hscale.
  split; [exact Hoffset|]. split; [exact Hinput|]. split; [exact Hscale|].
  split; [|split].
  - destruct (WlSurfaceState.buffer state) as [[buffer|]|] eqn:Hbuffer.
    + destruct (importable buffer) eqn:Himportable.
      * split; [|split; [exact Hsubmitted|]].
        -- destruct m as [s0 D evs].
           rewrite (commit_imports _ _ _ _ _ Hbuffer Himportable). eauto.
        -- subst s'. destruct m as [s0 D evs].
           rewrite (commit_imports _ _ _ _ _ Hbuffer Himportable).
           reflexivity.
      * split; [|split; [exact Hsize|by rewrite Hsubmitted, app_nil_r]].
        destruct m as [s0 D evs].
        destruct (commit_rejects _ _ s0 D evs Hbuffer Himportable)
          as (e & evs' & -> & _). eauto.
    + split; [exact Hsize|by rewrite Hsubmitted, app_nil_r].
    + split; [exact Hsize|by rewrite Hsubmitted, app_nil_r].
  - intros Hrole s''.
    destruct (commit_pending_current_state m Hrole) as [Hpc Hpending].
    fold s s'' in Hpc, Hpending. unfold CurrentState in Hpc.
    injection Hpc as Hsize'' Hoffset'' Hinput'' Hscale''.
    repeat split; try assumption.
    intros Hnone. rewrite Hsize''. unfold buffer_size_after.
    destruct (pending_to_commit_projections s) as (_ & _ & _ & -> & _).
    by rewrite Hnone.
  - intros source self merged. subst merged.
    unfold WlSurfaceState.update_from; cbn.
    destruct (WlSurfaceState.buffer source), (WlSurfaceState.scale source),
      (WlSurfaceState.offset source), (WlSurfaceState.input_shape source);
      repeat split; reflexivity.
Qed.

End CommitClaims.

(** ** The stride check *)

Lemma int32_wrap_in_range (z : Z) :
  INT32_MIN <= z <= INT32_MAX -> int32_wrap z = z.
Proof.
  unfold int32_wrap, INT32_MIN, INT32_MAX. intros Hrange.
  rewrite Z.mod_small; lia.
Qed.

Lemma int32_wrap_range (z : Z) : INT32_MIN <= int32_wrap z <= INT32_MAX.
Proof.
  unfold int32_wrap, INT32_MIN, INT32_MAX.
  pose proof (Z.mod_pos_bound (z - - 2 ^ 31) (2 ^ 32) ltac:(lia)). lia.
Qed.

Section RejectedImport.
Context {platform : Platform}.

(** A width whose product with the bytes per pixel does not fit an [int]
    gets past the check: at stride and width 2^30 and 4 bytes per pixel the
    product wraps to 0, and the stride is not below it. *)
Lemma stride_check_wraps (buffer : wl_resource) (format : Z) :
  wl_shm_buffer_get buffer
    = Some {| shm_stride := 2 ^ 30; shm_width := 2 ^ 30;
              shm_format := format |} ->
  MIR_BYTES_PER_PIXEL (wl_format_to_mir_format format) = 4 ->
  invalid_stride buffer = false.
Proof.
  intros Hshm Hbpp. unfold invalid_stride. rewrite Hshm.
  cbn [shm_stride shm_width shm_format]. rewrite Hbpp. reflexivity.
Qed.


End RejectedImport.



Section FrameCallbacks.
Context {platform : Platform}.

Lemma commit_attaching state buffer s D evs :
  WlSurfaceState.buffer state = Some (Some buffer) ->
  let m' := WlSurface.machine_of
              (WlSurface.commit state
                 {| WlSurface.surface := s; WlSurface.destroyed := D;
                    WlSurface.events := evs |}) in
  done_frames (WlSurface.events m') = done_frames evs /\
  WlSurface.frame_callbacks (WlSurface.surface m')
    = WlSurface.frame_callbacks s ++ WlSurfaceState.frame_callbacks state /\
  WlSurface.destroyed m' = D.
Proof.
  intros Hbuffer.
  destruct (merge_pending_projections state s)
    as (_ & _ & _ & _ & _ & Hframes & _).
  destruct (importable buffer) eqn:Himportable.
  - rewrite (commit_imports _ _ _ _ _ Hbuffer Himportable). cbn.
    rewrite done_frames_app, done_frames_notify, app_nil_r. by rewrite Hframes.
  - destruct (commit_rejects _ _ s D evs Hbuffer Himportable)
      as (e & evs' & -> & Hnone). cbn.
    rewrite done_frames_app, Hnone, app_nil_r. by rewrite Hframes.
Qed.

Lemma commit_not_attaching state s D evs :
  (WlSurfaceState.buffer state = None \/
   WlSurfaceState.buffer state = Some None) ->
  let m' := WlSurface.machine_of
              (WlSurface.commit state
                 {| WlSurface.surface := s; WlSurface.destroyed := D;
                    WlSurface.events := evs |}) in
  done_frames (WlSurface.events m')
    = done_frames evs
      ++ (deliver (WlSurface.frame_callbacks s
                   ++ WlSurfaceState.frame_callbacks state) D).1 /\
  WlSurface.frame_callbacks (WlSurface.surface m') = [].
Proof.
  destruct (merge_pending_projections state s)
    as (_ & _ & _ & _ & _ & Hframes & _).
  intros [Hbuffer|Hbuffer].
  - rewrite (commit_no_buffer _ _ _ _ Hbuffer). cbn.
    rewrite !done_frames_app, done_frames_notify, done_frames_sent, app_nil_r.
    by rewrite Hframes.
  - rewrite (commit_attach_none _ _ _ _ Hbuffer). cbn.
    rewrite !done_frames_app, done_frames_notify, done_frames_sent, app_nil_r.
    by rewrite Hframes.
Qed.

Lemma run_on_consumed m :
  WlSurface.run_task
    (executor_send_frame_callbacks (WlSurface.this (WlSurface.surface m))) m
  = WlSurface.send_frame_callbacks m.
Proof.
  unfold WlSurface.run_task. rewrite bind_run, get_run.
  by rewrite bool_decide_eq_true_2.
Qed.

(** C3, as the code has it. Whether [commit(state)] sends done itself
    depends on the committed state, not on the surface being mapped.

    When the state attaches a buffer, no done is sent inside the commit and
    the callbacks stay in the surface's list, whether the import accepts the
    buffer or not. If it accepts, the commit returns and the buffer handed
    to the stream carries, as its on-consumed completion, the task that
    spawns [send_frame_callbacks] on the executor. If it rejects, the commit
    throws and nothing reaches the stream: the callbacks are left in the
    list with no completion behind them.

    When the state attaches nothing or attaches none, the commit itself
    sends done to every callback of the list whose flag is down and empties
    the list. The list holds the callbacks of earlier buffer commits as
    well: a commit without a buffer that comes after a commit with one sends
    done to the callbacks of both, no completion having run in between, so a
    done is not held back until the buffer committed with it is consumed. *)
Theorem commit_frame_callback_delivery
    (state : WlSurfaceState.t) (m : WlSurface.Machine) :
  let s := WlSurface.surface m in
  let m' := WlSurface.machine_of (WlSurface.commit state m) in
  let frames :=
    WlSurface.frame_callbacks s ++ WlSurfaceState.frame_callbacks state in
  match WlSurfaceState.buffer state with
  | Some (Some buffer) =>
      done_frames (WlSurface.events m') = done_frames (WlSurface.events m) /\
      WlSurface.frame_callbacks (WlSurface.surface m') = frames /\
      (if importable buffer
       then
         (exists state',
            WlSurface.commit state m = WlSurface.Returned state' m') /\
         (exists mir_buffer,
            submitted (WlSurface.stream (WlSurface.surface m'))
              = submitted (WlSurface.stream s) ++ [mir_buffer] /\
            imported_from mir_buffer = buffer /\
            on_consumed mir_buffer
              = executor_send_frame_callbacks (WlSurface.this s))
       else
         (exists e, WlSurface.commit state m = WlSurface.Thrown e m') /\
         submitted (WlSurface.stream (WlSurface.surface m'))
           = submitted (WlSurface.stream s)) /\
      (forall later,
         WlSurfaceState.buffer later = None \/
         WlSurfaceState.buffer later = Some None ->
         let m'' := WlSurface.machine_of (WlSurface.commit later m') in
         done_frames (WlSurface.events m'')
           = done_frames (WlSurface.events m)
             ++ (deliver (frames ++ WlSurfaceState.frame_callbacks later)
                         (WlSurface.destroyed m)).1 /\
         WlSurface.frame_callbacks (WlSurface.surface m'') = [])
  | _ =>
      done_frames (WlSurface.events m')
        = done_frames (WlSurface.events m)
          ++ (deliver frames (WlSurface.destroyed m)).1 /\
      WlSurface.frame_callbacks (WlSurface.surface m') = []
  end /\
  (forall m1,
     WlSurface.this (WlSurface.surface m1) = WlSurface.this s ->
     WlSurface.run_task (executor_send_frame_callbacks (WlSurface.this s)) m1
       = WlSurface.send_frame_callbacks m1).
Proof.
  intros s m' frames. split.
  - destruct (WlSurfaceState.buffer state) as [[buffer|]|] eqn:Hbuffer.
    + destruct m as [s0 D evs].
      destruct (commit_attaching state buffer s0 D evs Hbuffer)
        as (Hdone & Hframes & Hflags).
      pose proof (commit_submitted state
        {| WlSurface.surface := s0; WlSurface.destroyed := D;
           WlSurface.events := evs |}) as Hsubmitted.
      rewrite Hbuffer in Hsubmitted. cbn [WlSurface.surface] in *.
      split; [exact Hdone|]. split; [exact Hframes|]. split.
      * destruct (importable buffer) eqn:Himportable.
        -- split.
           ++ subst m'. rewrite (commit_imports _ _ _ _ _ Hbuffer Himportable).
              eexists. reflexivity.
           ++ exists (imported (WlSurface.this s0) buffer).
              split; [exact Hsubmitted|]. split; reflexivity.
        -- split.
           ++ subst m'.
              destruct (commit_rejects _ _ s0 D evs Hbuffer Himportable)
                as (e & evs' & -> & _).
              exists e. reflexivity.
           ++ subst m'. rewrite Hsubmitted. apply app_nil_r.
      * intros later Hlater. fold m' in Hdone, Hframes, Hflags.
        destruct m' as [s1 D1 evs1].
        cbn [WlSurface.surface WlSurface.events WlSurface.destroyed]
          in Hdone, Hframes, Hflags.
        destruct (commit_not_attaching later s1 D1 evs1 Hlater)
          as (Hsent & Hempty).
        cbn zeta. split; [|exact Hempty].
        rewrite Hsent, Hdone, Hframes, Hflags. reflexivity.
    + destruct m as [s0 D evs].
      apply (commit_not_attaching state s0 D evs). by right.
    + destruct m as [s0 D evs].
      apply (commit_not_attaching state s0 D evs). by left.
  - intros m1 <-. apply run_on_consumed.
Qed.

Lemma commits_accumulate states s D evs :
  forallb attaches_importable states = true ->
  exists s1 evs1,
    commits states
      {| WlSurface.surface := s; WlSurface.destroyed := D;
         WlSurface.events := evs |} =
    WlSurface.Returned tt
      {| WlSurface.surface := s1; WlSurface.destroyed := D;
         WlSurface.events := evs1 |} /\
    done_frames evs1 = done_frames evs /\
    WlSurface.frame_callbacks s1
      = WlSurface.frame_callbacks s
        ++ concat (map WlSurfaceState.frame_callbacks states) /\
    WlSurface.this s1 = WlSurface.this s.
Proof.
  revert s evs. induction states as [|state rest IH]; intros s evs Hall.
  - exists s, evs. cbn. by rewrite app_nil_r.
  - cbn [forallb] in Hall. apply andb_true_iff in Hall as [Hstate Hrest].
    unfold attaches_importable in Hstate.
    destruct (WlSurfaceState.buffer state) as [[buffer|]|] eqn:Hbuffer;
      try discriminate.
    cbn [commits]. rewrite bind_run.
    rewrite (commit_imports _ _ _ _ _ Hbuffer Hstate). cbn beta iota zeta.
    match goal with
    | |- context [commits rest {| WlSurface.surface := ?s'; WlSurface.destroyed := _;
                                  WlSurface.events := ?evs' |}] =>
        destruct (IH s' evs' Hrest) as (s1 & evs1 & -> & Hdone & Hframes & Hthis)
    end.
    exists s1, evs1. split; [reflexivity|].
    destruct (merge_pending_projections state s)
      as (_ & _ & _ & _ & _ & Hmerged & _ & Hthis' & _).
    cbn in Hframes, Hthis.
    rewrite done_frames_app, done_frames_notify, app_nil_r in Hdone.
    split; [exact Hdone|]. split.
    + rewrite Hframes, Hmerged. cbn [map concat]. by rewrite <- app_assoc.
    + by rewrite Hthis, Hthis'.
Qed.

Lemma deliver_flags (frames : list wl_resource) (flags : gset wl_resource) x :
  x ∈ (deliver frames flags).2 <-> x ∈ flags \/ x ∈ frames.
Proof.
  revert flags. induction frames as [|frame rest IH]; intros flags;
    cbn [deliver].
  - cbn [snd]. rewrite elem_of_nil. tauto.
  - destruct (decide (frame ∈ flags)) as [Hdead|Hlive].
    + rewrite (bool_decide_eq_true_2 _ Hdead), IH, elem_of_cons.
      split; [tauto|]. intros [?|[->|?]]; tauto.
    + rewrite (bool_decide_eq_false_2 _ Hlive).
      specialize (IH ({[frame]} ∪ flags)).
      destruct (deliver rest ({[frame]} ∪ flags)) as [sent flags'].
      cbn [snd] in *.
      rewrite IH, elem_of_union, elem_of_singleton, elem_of_cons. tauto.
Qed.

Lemma commit_not_attaching_run state s D evs :
  (WlSurfaceState.buffer state = None \/
   WlSurfaceState.buffer state = Some None) ->
  let frames :=
    WlSurface.frame_callbacks s ++ WlSurfaceState.frame_callbacks state in
  exists s',
    WlSurface.commit state
      {| WlSurface.surface := s; WlSurface.destroyed := D;
         WlSurface.events := evs |} =
    WlSurface.Returned state
      {| WlSurface.surface := s';
         WlSurface.destroyed := (deliver frames D).2;
         WlSurface.events :=
           (evs ++ map send_done_event (deliver frames D).1)
           ++ notify_children s |} /\
    WlSurface.frame_callbacks s' = [] /\
    WlSurface.this s' = WlSurface.this s.
Proof.
  destruct (merge_pending_projections state s)
    as (_ & _ & _ & _ & _ & Hframes & _ & Hthis & _).
  intros [Hbuffer|Hbuffer] frames; subst frames.
  - rewrite (commit_no_buffer _ _ _ _ Hbuffer). cbn zeta.
    rewrite Hframes. eexists. split; [reflexivity|]. cbn. by rewrite Hthis.
  - rewrite (commit_attach_none _ _ _ _ Hbuffer). cbn zeta.
    cbn [WlSurface.with_buffer_size_ WlSurface.frame_callbacks].
    rewrite Hframes. eexists. split; [reflexivity|]. cbn. by rewrite Hthis.
Qed.

(** Over any run of accepted commits, done events and the callbacks still
    listed, taken together, are the registered callbacks whose flag was down
    at the start, in the order of registration. *)
Lemma commits_in_order states s D evs :
  forallb accepted states = true ->
  NoDup (WlSurface.frame_callbacks s
         ++ concat (map WlSurfaceState.frame_callbacks states)) ->
  exists s1 D1 evs1,
    commits states
      {| WlSurface.surface := s; WlSurface.destroyed := D;
         WlSurface.events := evs |} =
    WlSurface.Returned tt
      {| WlSurface.surface := s1; WlSurface.destroyed := D1;
         WlSurface.events := evs1 |} /\
    WlSurface.this s1 = WlSurface.this s /\
    NoDup (WlSurface.frame_callbacks s1) /\
    done_frames evs1
      ++ filter (fun frame => frame ∉ D1) (WlSurface.frame_callbacks s1)
    = done_frames evs
      ++ filter (fun frame => frame ∉ D)
           (WlSurface.frame_callbacks s
            ++ concat (map WlSurfaceState.frame_callbacks states)).
Proof.
  revert s D evs. induction states as [|state rest IH];
    intros s D evs Hall Hnodup.
  - exists s, D, evs. cbn [map concat] in *. rewrite app_nil_r in *.
    split; [reflexivity|]. split; [reflexivity|]. split; [exact Hnodup|].
    reflexivity.
  - cbn [forallb] in Hall. apply andb_true_iff in Hall as [Hstate Hrest].
    cbn [map concat] in Hnodup. cbn [map concat].
    set (l := WlSurface.frame_callbacks s) in *.
    set (c := WlSurfaceState.frame_callbacks state) in *.
    set (R := concat (map WlSurfaceState.frame_callbacks rest)) in *.
    cbn [commits]. rewrite bind_run.
    destruct (merge_pending_projections state s)
      as (_ & _ & _ & _ & _ & Hmerged & _ & Hthis' & _).
    fold l c in Hmerged.
    assert ((exists buffer,
               WlSurfaceState.buffer state = Some (Some buffer) /\
               importable buffer = true) \/
            (WlSurfaceState.buffer state = None \/
             WlSurfaceState.buffer state = Some None)) as Hcases.
    { unfold accepted in Hstate.
      destruct (WlSurfaceState.buffer state) as [[buffer|]|]; eauto. }
    destruct Hcases as [(buffer & Hbuffer & Himportable)|Hnot].
    + rewrite (commit_imports _ _ _ _ _ Hbuffer Himportable).
      cbn beta iota zeta.
      match goal with
      | |- context [commits rest {| WlSurface.surface := ?s';
                                    WlSurface.destroyed := _;
                                    WlSurface.events := ?evs' |}] =>
          destruct (IH s' D evs' Hrest)
            as (s1 & D1 & evs1 & -> & Hthis & Hnodup1 & Hinv)
      end.
      { cbn. rewrite Hmerged, <- app_assoc. exact Hnodup. }
      exists s1, D1, evs1. split; [reflexivity|].
      cbn in Hthis, Hinv.
      rewrite done_frames_app, done_frames_notify, app_nil_r, Hmerged,
        <- app_assoc in Hinv.
      split; [by rewrite Hthis, Hthis'|]. split; [exact Hnodup1|exact Hinv].
    + destruct (commit_not_attaching_run state s D evs Hnot)
        as (s' & -> & Hempty & Hthis0).
      cbn beta iota zeta. fold l c.
      destruct (IH s' (deliver (l ++ c) D).2
                  ((evs ++ map send_done_event (deliver (l ++ c) D).1)
                   ++ notify_children s) Hrest)
        as (s1 & D1 & evs1 & -> & Hthis & Hnodup1 & Hinv).
      { rewrite Hempty. cbn [app]. fold R.
        rewrite app_assoc in Hnodup. by apply NoDup_app in Hnodup as (_ & _ & ?). }
      exists s1, D1, evs1. split; [reflexivity|].
      split; [by rewrite Hthis, Hthis0|]. split; [exact Hnodup1|].
      rewrite Hinv, Hempty. cbn [app]. fold R.
      rewrite !done_frames_app, done_frames_notify, done_frames_sent, app_nil_r.
      rewrite app_assoc in Hnodup.
      apply NoDup_app in Hnodup as (Hlc & Hdisjoint & _).
      rewrite (deliver_live _ D Hlc), <- app_assoc. f_equal.
      rewrite (app_assoc l c R), (filter_app _ (l ++ c) R). f_equal.
      apply list_filter_iff_in. intros frame Hin.
      rewrite deliver_flags. split; [tauto|].
      intros Hlive [Hdead|Hlisted]; [tauto|].
      exact (Hdisjoint frame Hlisted Hin).
Qed.

(** C4. Callbacks registered by successive commits go to the end of the
    surface's one list, never in place of earlier ones, and done reaches the
    callbacks whose flag is down in the order of registration: after any run
    of accepted commits, once the on-consumed completion has run
    [send_frame_callbacks], the done events sent since the start are exactly
    those callbacks, in that order, and the list is empty. When every commit
    of the run attaches a buffer, no done is sent before the completion
    runs, and the list then holds all the callbacks registered so far. *)
Theorem frame_callbacks_fifo
    (states : list WlSurfaceState.t) (m : WlSurface.Machine) :
  let s := WlSurface.surface m in
  let registered := concat (map WlSurfaceState.frame_callbacks states) in
  forallb accepted states = true ->
  NoDup (WlSurface.frame_callbacks s ++ registered) ->
  exists m1 m2,
    commits states m = WlSurface.Returned tt m1 /\
    WlSurface.run_task (executor_send_frame_callbacks (WlSurface.this s)) m1
      = WlSurface.Returned tt m2 /\
    done_frames (WlSurface.events m2)
      = done_frames (WlSurface.events m)
        ++ filter (fun frame => frame ∉ WlSurface.destroyed m)
                  (WlSurface.frame_callbacks s ++ registered) /\
    WlSurface.frame_callbacks (WlSurface.surface m2) = [] /\
    (forallb attaches_importable states = true ->
     done_frames (WlSurface.events m1) = done_frames (WlSurface.events m) /\
     WlSurface.frame_callbacks (WlSurface.surface m1)
       = WlSurface.frame_callbacks s ++ registered).
Proof.
  intros s registered Hall Hnodup. destruct m as [s0 D evs].
  cbn [WlSurface.surface] in s. subst s.
  destruct (commits_in_order states s0 D evs Hall Hnodup)
    as (s1 & D1 & evs1 & Hrun & Hthis & Hnodup1 & Hinv).
  fold registered in Hinv.
  eexists _, _. split; [exact Hrun|].
  cbn [WlSurface.surface WlSurface.events WlSurface.destroyed].
  rewrite <- Hthis.
  change s1 with (WlSurface.surface
    {| WlSurface.surface := s1; WlSurface.destroyed := D1;
       WlSurface.events := evs1 |}) at 1.
  rewrite run_on_consumed, send_frame_callbacks_run.
  split; [reflexivity|].
  cbn [WlSurface.surface WlSurface.events WlSurface.destroyed].
  split; [|split; [reflexivity|]].
  - rewrite done_frames_app, done_frames_sent, (deliver_live _ D1 Hnodup1).
    exact Hinv.
  - intros Hattach.
    destruct (commits_accumulate states s0 D evs Hattach)
      as (s1' & evs1' & Hrun' & Hdone & Hframes & _).
    rewrite Hrun in Hrun'. injection Hrun' as -> _ ->.
    split; [exact Hdone|exact Hframes].
Qed.

End FrameCallbacks.

(** Three callbacks registered by three successive commits, each attaching a
    buffer: done(10), done(11), done(12), in this order, once the buffer has
    been consumed. *)
Lemma frame_callbacks_fifo_witness :
  exists m1 m2,
    commits (platform := Fixture.platform)
      [Fixture.attaching 8%nat [10%nat]; Fixture.attaching 9%nat [11%nat];
       Fixture.attaching 8%nat [12%nat]]
      (Fixture.machine Fixture.fresh) = WlSurface.Returned tt m1 /\
    done_frames (WlSurface.events m1) = [] /\
    WlSurface.frame_callbacks (WlSurface.surface m1)
      = [10%nat; 11%nat; 12%nat] /\
    WlSurface.run_task (executor_send_frame_callbacks 1%nat) m1
      = WlSurface.Returned tt m2 /\
    done_frames (WlSurface.events m2) = [10%nat; 11%nat; 12%nat] /\
    WlSurface.frame_callbacks (WlSurface.surface m2) = [].
Proof.
  destruct (frame_callbacks_fifo (platform := Fixture.platform)
              [Fixture.attaching 8%nat [10%nat]; Fixture.attaching 9%nat [11%nat];
               Fixture.attaching 8%nat [12%nat]]
              (Fixture.machine Fixture.fresh) eq_refl)
    as (m1 & m2 & Hrun & Hconsumed & Hdone & Hempty & Hattached).
  { apply (bool_decide_unpack (NoDup _)). vm_compute. exact I. }
  destruct (Hattached eq_refl) as [Hquiet Hlisted].
  exists m1, m2. split; [exact Hrun|]. split; [exact Hquiet|].
  split; [exact Hlisted|]. split; [exact Hconsumed|].
  split; [exact Hdone|exact Hempty].
Defined.

(** C3 as stated fails, twice. A mapped surface receives a frame request
    and a commit with no attach: the surface stays mapped and done(11) is
    sent inside the commit. And a mapped surface receives a frame request, an
    attach of the accepted buffer 8 and a commit, which sends nothing and
    leaves the buffer with the stream, then a second commit with nothing
    pending: done(10) is sent inside the second commit, no completion of the
    buffer having run. *)
Lemma commit_without_attach_sends_done :
  let committed :=
    WlSurface.commit_pending (platform := Fixture.platform)
      (Fixture.machine (WlSurface.frame 11%nat Fixture.mapped)) in
  let attached :=
    (WlSurface.attach (Some 8%nat) 0 0;;
     WlSurface.commit_pending (platform := Fixture.platform))
      (Fixture.machine (WlSurface.frame 10%nat Fixture.mapped)) in
  let overtaken :=
    WlSurface.commit_pending (platform := Fixture.platform)
      (WlSurface.machine_of attached) in
  let in_flight :=
    [ {| imported_from := 8%nat;
         on_consumed := executor_send_frame_callbacks 1%nat;
         on_release := None |} ] in
  (WlSurface.buffer_size_ Fixture.mapped
     = Some {| width := 100; height := 100 |} /\
   (exists m', committed = WlSurface.Returned tt m') /\
   WlSurface.buffer_size_ (WlSurface.surface (WlSurface.machine_of committed))
     = Some {| width := 100; height := 100 |} /\
   WlSurface.events (WlSurface.machine_of committed)
     = [send_done_event 11%nat]) /\
  ((exists m', attached = WlSurface.Returned tt m') /\
   WlSurface.events (WlSurface.machine_of attached) = [] /\
   submitted (WlSurface.stream (WlSurface.surface (WlSurface.machine_of attached)))
     = in_flight /\
   (exists m', overtaken = WlSurface.Returned tt m') /\
   WlSurface.events (WlSurface.machine_of overtaken)
     = [send_done_event 10%nat] /\
   submitted (WlSurface.stream (WlSurface.surface (WlSurface.machine_of overtaken)))
     = in_flight).
Proof.
  cbn zeta. split.
  - split; [reflexivity|]. split; [|split; reflexivity].
    eexists. vm_compute. reflexivity.
  - split; [eexists; vm_compute; reflexivity|].
    split; [reflexivity|]. split; [reflexivity|].
    split; [eexists; vm_compute; reflexivity|].
    split; reflexivity.
Qed.

Section Idempotence.
Context {platform : Platform}.

Lemma set_scale_same st : set_scale (stream_scale st) st = st.
Proof. by destruct st. Qed.

Lemma merge_pending_stream state s :
  WlSurface.stream (merge_pending state s) =
  match WlSurfaceState.scale state with
  | Some v => set_scale v (WlSurface.stream s)
  | None => WlSurface.stream s
  end.
Proof.
  unfold merge_pending.
  by destruct (WlSurfaceState.offset state), (WlSurfaceState.input_shape state),
    (WlSurfaceState.scale state).
Qed.

Lemma pending_to_commit_fields s :
  WlSurfaceState.offset (pending_to_commit s) =
    (if bool_decide (WlSurfaceState.offset (WlSurface.pending s)
                     = Some (WlSurface.offset_ s))
     then None else WlSurfaceState.offset (WlSurface.pending s)) /\
  WlSurfaceState.input_shape (pending_to_commit s) =
    (if bool_decide (WlSurfaceState.input_shape (WlSurface.pending s)
                     = Some (WlSurface.input_shape s))
     then None else WlSurfaceState.input_shape (WlSurface.pending s)).
Proof.
  unfold pending_to_commit.
  destruct (bool_decide (WlSurfaceState.offset (WlSurface.pending s)
                         = Some (WlSurface.offset_ s)));
  cbn [WlSurfaceState.with_offset WlSurfaceState.input_shape];
  destruct (bool_decide (WlSurfaceState.input_shape (WlSurface.pending s)
                         = Some (WlSurface.input_shape s)));
  split; reflexivity.
Qed.

Lemma commit_state_idempotent state m :
  restates_current state (WlSurface.surface m) ->
  CurrentState (WlSurface.surface (WlSurface.machine_of (WlSurface.commit state m)))
  = CurrentState (WlSurface.surface m).
Proof.
  intros (Hoffset & Hinput & Hscale & Hbuffer).
  rewrite commit_current_state. unfold CurrentState, buffer_size_after.
  rewrite merge_pending_stream.
  assert (match WlSurfaceState.scale state with
          | Some v => set_scale v (WlSurface.stream (WlSurface.surface m))
          | None => WlSurface.stream (WlSurface.surface m)
          end = WlSurface.stream (WlSurface.surface m)) as ->.
  { destruct Hscale as [->| ->]; [reflexivity|apply set_scale_same]. }
  f_equal; [f_equal; [f_equal|]|].
  - destruct (WlSurfaceState.buffer state) as [[buffer|]|]; [|done|done].
    by destruct (importable buffer).
  - by destruct Hoffset as [->| ->].
  - by destruct Hinput as [->| ->].
  - by destruct Hscale as [->| ->].
Qed.

(** C7. Committing a pending state whose set fields all equal the current
    values leaves buffer size, offset, input region and scale as they were:
    through [commit()] whatever the role, and through [commit(state)] on the
    pending state itself. An offset or input shape equal to the current one
    is taken out of the state before it reaches the role, so the state then
    asks for no refresh of the surface data beyond an invalidation already
    recorded. *)
Theorem commit_idempotent (m : WlSurface.Machine) :
  let s := WlSurface.surface m in
  restates_current (WlSurface.pending s) s ->
  CurrentState (WlSurface.surface (WlSurface.machine_of (WlSurface.commit_pending m)))
    = CurrentState s /\
  CurrentState
    (WlSurface.surface
       (WlSurface.machine_of (WlSurface.commit (WlSurface.pending s) m)))
    = CurrentState s /\
  WlSurfaceState.surface_data_needs_refresh (pending_to_commit s)
    = WlSurfaceState.surface_data_invalidated (WlSurface.pending s).
Proof.
  intros s Hsame. split; [|split].
  - destruct m as [s0 D evs]. cbn [WlSurface.surface] in s. subst s.
    rewrite commit_pending_run.
    destruct (WlSurface.role s0) as [|r] eqn:Hrole.
    + rewrite dispatch_commit_null by exact Hrole.
      rewrite NullWlSurfaceRole_commit_machine, commit_state_idempotent;
        [reflexivity|].
      destruct Hsame as (Hoffset & Hinput & Hscale & Hbuffer).
      destruct (pending_to_commit_fields s0) as [Hpo Hpi].
      destruct (pending_to_commit_projections s0)
        as (_ & _ & Hps & Hpb & _).
      unfold restates_current. cbn [WlSurface.surface].
      rewrite Hpo, Hpi, Hps, Hpb. repeat split.
      * left. destruct Hoffset as [Ho|Ho]; rewrite Ho;
          [by case_bool_decide|by rewrite bool_decide_eq_true_2].
      * left. destruct Hinput as [Hi|Hi]; rewrite Hi;
          [by case_bool_decide|by rewrite bool_decide_eq_true_2].
      * exact Hscale.
      * exact Hbuffer.
    + by rewrite (dispatch_commit_role _ r
                    (WlSurface.with_pending WlSurfaceState.empty s0) _ _ Hrole).
  - by apply commit_state_idempotent.
  - destruct Hsame as (Hoffset & Hinput & _).
    destruct (pending_to_commit_fields s) as [Hpo Hpi].
    destruct (pending_to_commit_projections s) as (_ & _ & _ & _ & _ & Hinv).
    unfold WlSurfaceState.surface_data_needs_refresh. rewrite Hpo, Hpi, Hinv.
    assert ((if bool_decide (WlSurfaceState.offset (WlSurface.pending s)
                             = Some (WlSurface.offset_ s))
             then None else WlSurfaceState.offset (WlSurface.pending s)) = None)
      as ->.
    { destruct Hoffset as [Ho|Ho]; rewrite Ho;
        [by case_bool_decide|by rewrite bool_decide_eq_true_2]. }
    assert ((if bool_decide (WlSurfaceState.input_shape (WlSurface.pending s)
                             = Some (WlSurface.input_shape s))
             then None else WlSurfaceState.input_shape (WlSurface.pending s))
            = None) as ->.
    { destruct Hinput as [Hi|Hi]; rewrite Hi;
        [by case_bool_decide|by rewrite bool_decide_eq_true_2]. }
    rewrite !bool_decide_eq_false_2; [reflexivity| |];
      intros [? ?]; discriminate.
Qed.

End Idempotence.

Lemma commit_idempotent_witness :
  let s :=
    WlSurface.set_pending_offset (Some Displacement0)
      (WlSurface.set_input_region None
         (WlSurface.set_buffer_scale 1 Fixture.mapped)) in
  WlSurfaceState.offset (WlSurface.pending s) = Some (WlSurface.offset_ s) /\
  WlSurfaceState.input_shape (WlSurface.pending s)
    = Some (WlSurface.input_shape s) /\
  WlSurfaceState.scale (WlSurface.pending s)
    = Some (stream_scale (WlSurface.stream s)) /\
  CurrentState
    (WlSurface.surface
       (WlSurface.machine_of
          (WlSurface.commit_pending (platform := Fixture.platform)
             (Fixture.machine s))))
  = CurrentState s.
Proof.
  cbn zeta. split; [reflexivity|]. split; [reflexivity|].
  split; [reflexivity|].
  apply (commit_idempotent (platform := Fixture.platform)
           (Fixture.machine
              (WlSurface.set_pending_offset (Some Displacement0)
                 (WlSurface.set_input_region None
                    (WlSurface.set_buffer_scale 1 Fixture.mapped))))).
  split; [right; reflexivity|]. split; [right; reflexivity|].
  split; [right; reflexivity|exact I].
Defined.

(** ** Roles *)

Section Roles.
Context {platform : Platform}.

(** C8. A surface carries at most one role. [set_role] on a surface whose
    role is not the null role throws ("Surface already has a role") and
    leaves the surface, with its role, as it was; on a surface with the null
    role it installs the role, so a second [set_role] right after a first
    fails and keeps the first role. [clear_role] goes back to the null role,
    whose commit is the surface's own [commit(state)]: after it, [commit()]
    clears the pending state and applies it to the surface directly, and a
    role can be set again. *)
Theorem role_assignment (m : WlSurface.Machine) (role_ : WlSurfaceRole) :
  let s := WlSurface.surface m in
  let with_surface (s' : WlSurface.t) :=
    {| WlSurface.surface := s'; WlSurface.destroyed := WlSurface.destroyed m;
       WlSurface.events := WlSurface.events m |} in
  (WlSurface.role s <> null_role ->
   WlSurface.set_role role_ m
     = WlSurface.Thrown (runtime_error "Surface already has a role") m) /\
  (WlSurface.role s = null_role ->
   WlSurface.set_role role_ m
     = WlSurface.Returned tt (with_surface (WlSurface.with_role role_ s))) /\
  (WlSurface.role s = null_role ->
   forall first second,
     (WlSurface.set_role (role_object first);; WlSurface.set_role second) m
     = WlSurface.Thrown (runtime_error "Surface already has a role")
         (with_surface (WlSurface.with_role (role_object first) s))) /\
  WlSurface.role (WlSurface.clear_role s) = null_role /\
  WlSurface.set_role role_ (with_surface (WlSurface.clear_role s))
    = WlSurface.Returned tt (with_surface (WlSurface.with_role role_ s)) /\
  (forall state,
     WlSurface.dispatch_commit state (with_surface (WlSurface.clear_role s))
     = (WlSurface.commit state;; mret tt)
         (with_surface (WlSurface.clear_role s))) /\
  WlSurface.commit_pending (with_surface (WlSurface.clear_role s))
    = (WlSurface.commit (pending_to_commit s);; mret tt)
        (with_surface
           (WlSurface.with_pending WlSurfaceState.empty
              (WlSurface.clear_role s))).
Proof.
  intros s with_surface. destruct m as [s0 D evs].
  cbn [WlSurface.surface WlSurface.destroyed WlSurface.events] in *.
  subst s with_surface. cbn beta.
  assert (forall r s1,
            WlSurface.role s1 = null_role ->
            WlSurface.set_role r
              {| WlSurface.surface := s1; WlSurface.destroyed := D;
                 WlSurface.events := evs |}
            = WlSurface.Returned tt
                {| WlSurface.surface := WlSurface.with_role r s1;
                   WlSurface.destroyed := D; WlSurface.events := evs |})
    as Hinstall.
  { intros r s1 Hnull. unfold WlSurface.set_role.
    rewrite bind_run, get_run. cbn [WlSurface.surface].
    rewrite bool_decide_eq_false_2 by (rewrite Hnull; tauto). reflexivity. }
  assert (forall r s1,
            WlSurface.role s1 <> null_role ->
            WlSurface.set_role r
              {| WlSurface.surface := s1; WlSurface.destroyed := D;
                 WlSurface.events := evs |}
            = WlSurface.Thrown (runtime_error "Surface already has a role")
                {| WlSurface.surface := s1; WlSurface.destroyed := D;
                   WlSurface.events := evs |})
    as Hrefuse.
  { intros r s1 Hset. unfold WlSurface.set_role.
    rewrite bind_run, get_run. cbn [WlSurface.surface].
    rewrite bool_decide_eq_true_2 by exact Hset. reflexivity. }
  split; [apply Hrefuse|]. split; [apply Hinstall|]. split; [|split; [|split]].
  - intros Hnull first second. rewrite bind_run, Hinstall by exact Hnull.
    apply Hrefuse. discriminate.
  - reflexivity.
  - by rewrite Hinstall.
  - split.
    + intros state. by apply dispatch_commit_null.
    + rewrite commit_pending_run. by apply dispatch_commit_null.
Qed.

End Roles.

(** ** Region accumulation *)

Section Regions.
Context {platform : Platform}.

(** C5, as the code has it. A surface whose input region is the explicit
    empty list adds exactly one zero-size rectangle to the accumulated input
    shape; a surface whose input region was never set adds exactly one
    rectangle, the whole surface at the cumulative offset (its children add
    theirs after it). Setting an empty region and committing is what makes
    the region the explicit empty list. The two contributions differ exactly
    when the whole-surface rectangle is not itself the zero rectangle: for a
    surface that is unmapped, or mapped with a zero size, and sits at the
    zero offset, both are the same zero-size rectangle. *)
Theorem populate_surface_data_input_region
    (s : WlSurface.t) (buffer_streams : list StreamSpecification)
    (input_shape_accumulator : list Rectangle) (parent_offset : Displacement) :
  let offset := displacement_plus parent_offset (WlSurface.offset_ s) in
  let streams :=
    buffer_streams ++ [ {| spec_stream := WlSurface.this s;
                           spec_displacement := offset;
                           spec_size := None |} ] in
  let surface_rect :=
    {| top_left := point_plus Point0 offset;
       size := default Size0 (WlSurface.buffer_size_ s) |} in
  (WlSurface.input_shape s = Some [] ->
   WlSurface.populate_surface_data s buffer_streams input_shape_accumulator
                                   parent_offset
   = WlSurface.populate_children (WlSurface.children s) streams
       (input_shape_accumulator ++ [Rectangle0]) offset) /\
  (WlSurface.input_shape s = None ->
   WlSurface.populate_surface_data s buffer_streams input_shape_accumulator
                                   parent_offset
   = WlSurface.populate_children (WlSurface.children s) streams
       (input_shape_accumulator ++ [surface_rect]) offset) /\
  (input_shape_accumulator ++ [surface_rect]
     = input_shape_accumulator ++ [Rectangle0] <->
   offset = Displacement0 /\
   default Size0 (WlSurface.buffer_size_ s) = Size0) /\
  (WlSurface.role s = null_role ->
   forall D evs,
     WlSurface.input_shape
       (WlSurface.surface
          (WlSurface.machine_of
             (WlSurface.commit_pending
                {| WlSurface.surface := WlSurface.set_input_region (Some []) s;
                   WlSurface.destroyed := D; WlSurface.events := evs |})))
     = Some []).
Proof.
  intros offset streams surface_rect. split; [|split; [|split]].
  - intros Hempty. unfold WlSurface.populate_surface_data. by rewrite Hempty.
  - intros Hunset. unfold WlSurface.populate_surface_data. by rewrite Hunset.
  - subst surface_rect. unfold Rectangle0, Point0, Size0, Displacement0, point_plus.
    destruct offset as [ox oy].
    destruct (default {| width := 0; height := 0 |} (WlSurface.buffer_size_ s))
      as [w h]. cbn [x y dx dy].
    split.
    + intros Heq. apply app_inv_head in Heq. injection Heq as Hx Hy Hw Hh.
      split; f_equal; lia.
    + intros [Ho Hs]. injection Ho as -> ->. injection Hs as -> ->. reflexivity.
  - intros Hnull D evs.
    destruct (commit_pending_current_state
      {| WlSurface.surface := WlSurface.set_input_region (Some []) s;
         WlSurface.destroyed := D; WlSurface.events := evs |} Hnull)
      as [Hcurrent _].
    unfold CurrentState in Hcurrent.
    injection Hcurrent as _ _ Hinput _. exact Hinput.
Qed.

End Regions.

(** On a mapped 100x100 surface without children: the explicit empty region
    yields the single zero-size rectangle, the unset region the single
    rectangle of the whole surface. *)
Lemma populate_surface_data_input_region_witness :
  (WlSurface.populate_surface_data
     (WlSurface.with_input_shape (Some []) Fixture.mapped) [] [] Displacement0).2
    = [Rectangle0] /\
  (WlSurface.populate_surface_data Fixture.mapped [] [] Displacement0).2
    = [Fixture.rect 0 0 100 100].
Proof.
  destruct (populate_surface_data_input_region (platform := Fixture.platform)
              (WlSurface.with_input_shape (Some []) Fixture.mapped) [] []
              Displacement0) as (Hempty & _).
  destruct (populate_surface_data_input_region (platform := Fixture.platform)
              Fixture.mapped [] [] Displacement0) as (_ & Hunset & _).
  split.
  - by rewrite (Hempty eq_refl).
  - by rewrite (Hunset eq_refl).
Defined.

(** C5 as stated fails on an unmapped surface: a client that sets an empty
    input region and commits, and a client that never sets one, end up with
    the same accumulated input shape, one zero-size rectangle. *)
Lemma unmapped_input_regions_coincide :
  let never_set := Fixture.fresh in
  let explicit_empty :=
    WlSurface.surface
      (WlSurface.machine_of
         (WlSurface.commit_pending (platform := Fixture.platform)
            (Fixture.machine
               (WlSurface.set_input_region (Some []) Fixture.fresh)))) in
  WlSurface.input_shape never_set = None /\
  WlSurface.input_shape explicit_empty = Some [] /\
  WlSurface.populate_surface_data never_set [] [] Displacement0
    = WlSurface.populate_surface_data explicit_empty [] [] Displacement0 /\
  (WlSurface.populate_surface_data never_set [] [] Displacement0).2
    = [Rectangle0].
Proof. cbn zeta. repeat split; vm_compute; reflexivity. Qed.

(** * Further properties of the surface *)

(** ** Merging pending states *)

(** X1. [update_from] makes the pending states a monoid: merging with the
    empty state changes nothing on either side, and merging is associative,
    so a cache that absorbs states one by one ends up the same however the
    merges are grouped. *)
Theorem update_from_monoid (a b c : WlSurfaceState.t) :
  WlSurfaceState.update_from WlSurfaceState.empty a = a /\
  WlSurfaceState.update_from a WlSurfaceState.empty = a /\
  WlSurfaceState.update_from c (WlSurfaceState.update_from b a)
  = WlSurfaceState.update_from (WlSurfaceState.update_from c b) a.
Proof.
  destruct a as [ab asc ao ai af av], b as [bb bsc bo bi bf bv],
    c as [cb csc co ci cf cv].
  unfold WlSurfaceState.update_from, WlSurfaceState.empty; cbn.
  split; [by rewrite app_nil_r|]. split.
  - by destruct ab, asc, ao, ai, av.
  - rewrite app_assoc.
    destruct bb, cb, bsc, csc, bo, co, bi, ci, bv, cv; reflexivity.
Qed.

(** X2. A merged state asks for a refresh of the surface data exactly when
    one of the two states did; the empty state asks for none. *)
Theorem surface_data_needs_refresh_update_from (source self : WlSurfaceState.t) :
  WlSurfaceState.surface_data_needs_refresh
    (WlSurfaceState.update_from source self)
  = (WlSurfaceState.surface_data_needs_refresh self
     || WlSurfaceState.surface_data_needs_refresh source) /\
  WlSurfaceState.surface_data_needs_refresh WlSurfaceState.empty = false.
Proof.
  split; [|reflexivity].
  destruct source as [sb ssc so si sf sv], self as [tb tsc to ti tf tv].
  unfold WlSurfaceState.surface_data_needs_refresh,
    WlSurfaceState.update_from; cbn.
  destruct so, to, si, ti, sv, tv; reflexivity.
Qed.

(** ** Pixel formats *)

(** X3. [wl_format_to_mir_format] answers [mir_pixel_format_invalid] exactly
    for the codes outside the nine it knows, and it maps no two codes to the
    same valid format. *)
Theorem wl_format_to_mir_format_known (format other : Z) :
  (wl_format_to_mir_format format = mir_pixel_format_invalid <->
   format ∉ [WL_SHM_FORMAT_ARGB8888; WL_SHM_FORMAT_XRGB8888;
             WL_SHM_FORMAT_RGBA4444; WL_SHM_FORMAT_RGBA5551;
             WL_SHM_FORMAT_RGB565; WL_SHM_FORMAT_RGB888;
             WL_SHM_FORMAT_BGR888; WL_SHM_FORMAT_XBGR8888;
             WL_SHM_FORMAT_ABGR8888]) /\
  (wl_format_to_mir_format format = wl_format_to_mir_format other ->
   wl_format_to_mir_format format <> mir_pixel_format_invalid ->
   format = other).
Proof.
  unfold wl_format_to_mir_format. split.
  - rewrite !not_elem_of_cons.
    repeat match goal with
           | |- context [?a =? ?b] => destruct (Z.eqb_spec a b)
           end;
      (split; [try discriminate; intros _; repeat split; try assumption;
               apply not_elem_of_nil
              |try reflexivity; intros Hout; exfalso; tauto]).
  - repeat match goal with
           | |- context [?a =? ?b] => destruct (Z.eqb_spec a b)
           end; intros Hsame Hvalid; try congruence.
Qed.

(** ** The child list *)

Lemma with_children_same s : WlSurface.with_children (WlSurface.children s) s = s.
Proof. by destruct s. Qed.

Lemma existsb_address (c : ptr) (l : list WlSubsurface) :
  existsb (fun entry => bool_decide (subsurface_this entry = c)) l = true <->
  c ∈ map subsurface_this l.
Proof.
  induction l as [|entry rest IH]; cbn [existsb map].
  - rewrite elem_of_nil. split; [discriminate|tauto].
  - rewrite orb_true_iff, IH, elem_of_cons, bool_decide_eq_true.
    split; intros [?|?]; auto.
Qed.

(** X4. [add_subsurface] never makes two entries share an address. Adding a
    child whose address is already listed leaves the surface as it was and
    logs a warning; any other child goes to the end of the list, silently. *)
Theorem add_subsurface_keeps_addresses_distinct
    (child : WlSubsurface) (m : WlSurface.Machine) :
  let s := WlSurface.surface m in
  exists m',
    WlSurface.add_subsurface child m = WlSurface.Returned tt m' /\
    subsurface_this child ∈ addresses (WlSurface.surface m') /\
    (NoDup (addresses s) -> NoDup (addresses (WlSurface.surface m'))) /\
    (subsurface_this child ∈ addresses s ->
     WlSurface.surface m' = s /\
     WlSurface.events m'
     = WlSurface.events m
       ++ [log_warning "Subsurface %p added to surface %p multiple times"]) /\
    (subsurface_this child ∉ addresses s ->
     WlSurface.surface m'
     = WlSurface.with_children (WlSurface.children s ++ [child]) s /\
     WlSurface.events m' = WlSurface.events m).
Proof.
  intros s. destruct m as [s0 D evs]. cbn [WlSurface.surface] in s. subst s.
  unfold WlSurface.add_subsurface, addresses.
  rewrite bind_run, get_run. cbn [WlSurface.surface].
  destruct (existsb _ (WlSurface.children s0)) eqn:Hfound.
  - apply existsb_address in Hfound.
    rewrite emit_run. eexists. split; [reflexivity|].
    cbn [WlSurface.surface WlSurface.events].
    split; [exact Hfound|]. split; [tauto|]. split; [tauto|]. tauto.
  - assert (subsurface_this child ∉ map subsurface_this (WlSurface.children s0))
      as Hfresh.
    { intros Hin. apply existsb_address in Hin. congruence. }
    rewrite update_run. eexists. split; [reflexivity|].
    cbn [WlSurface.surface WlSurface.events WlSurface.with_children
         WlSurface.children].
    rewrite map_app. cbn [map].
    split; [apply elem_of_app; right; constructor|].
    split; [|split; [tauto|tauto]].
    intros Hnodup. apply NoDup_app. split; [exact Hnodup|].
    split; [|apply NoDup_singleton].
    intros a Ha Hsingle. apply list_elem_of_singleton in Hsingle. by subst.
Qed.

Lemma filter_addresses (c : ptr) (l : list WlSubsurface) :
  map subsurface_this (filter (fun entry => subsurface_this entry ≠ c) l)
  = filter (fun a => a ≠ c) (map subsurface_this l).
Proof.
  induction l as [|entry rest IH]; [reflexivity|].
  cbn [map]. rewrite !filter_cons.
  destruct (decide (subsurface_this entry ≠ c)); cbn [map]; by rewrite IH.
Qed.

Lemma filter_all {A} (P : A -> Prop) `{!forall x, Decision (P x)} (l : list A) :
  (forall x, x ∈ l -> P x) -> filter P l = l.
Proof.
  induction l as [|a rest IH]; intros Hall; [reflexivity|].
  rewrite filter_cons_True by (apply Hall; constructor).
  f_equal. apply IH. intros x Hin. apply Hall. by constructor.
Qed.

(** X5. [remove_subsurface] takes out every entry with the given address and
    keeps the others in their order, so distinct addresses stay distinct.
    Removing an address that is not listed changes nothing, and removing a
    child right after adding it to a list that did not hold it gives the
    surface back. *)
Theorem remove_subsurface_erases
    (child : WlSubsurface) (m : WlSurface.Machine) :
  let s := WlSurface.surface m in
  let c := subsurface_this child in
  (c ∉ addresses (WlSurface.remove_subsurface c s)) /\
  addresses (WlSurface.remove_subsurface c s)
    = filter (fun a => a ≠ c) (addresses s) /\
  (NoDup (addresses s) -> NoDup (addresses (WlSurface.remove_subsurface c s))) /\
  (c ∉ addresses s ->
   WlSurface.remove_subsurface c s = s /\
   WlSurface.remove_subsurface c
     (WlSurface.surface (WlSurface.machine_of (WlSurface.add_subsurface child m)))
   = s).
Proof.
  intros s c. unfold addresses, WlSurface.remove_subsurface.
  cbn [WlSurface.children WlSurface.with_children].
  rewrite filter_addresses.
  split; [|split; [reflexivity|split]].
  - intros Hin. apply list_elem_of_filter in Hin as [Hne _]. by apply Hne.
  - apply NoDup_filter.
  - intros Hfresh.
    assert (filter (fun entry => subsurface_this entry ≠ c) (WlSurface.children s)
            = WlSurface.children s) as Hsame.
    { apply filter_all. intros entry Hin Heq. apply Hfresh. rewrite <- Heq.
      apply list_elem_of_fmap. eauto. }
    split; [rewrite Hsame; apply with_children_same|].
    destruct m as [s0 D evs]. cbn [WlSurface.surface] in *. subst s.
    rewrite add_subsurface_appends.
    + cbn [WlSurface.machine_of WlSurface.surface WlSurface.children
           WlSurface.with_children].
      rewrite filter_app, Hsame, filter_cons_False, filter_nil, app_nil_r
        by (subst c; tauto).
      by destruct s0.
    + intros entry Hin Heq. apply Hfresh. subst c. rewrite <- Heq.
      apply list_elem_of_fmap. eauto.
Qed.

Lemma first_child_at_accepting subsurfaces point :
  WlSurface.first_child_at
    (rev (filter (fun c => child_subsurface_at c point ≠ None) subsurfaces))
    point
  = WlSurface.first_child_at (rev subsurfaces) point.
Proof.
  induction subsurfaces as [|c rest IH]; [reflexivity|].
  rewrite filter_cons. cbn [rev].
  destruct (decide (child_subsurface_at c point ≠ None)) as [Hyes|Hno].
  - cbn [rev]. by rewrite !first_child_at_app, IH.
  - rewrite first_child_at_app, IH. cbn [WlSurface.first_child_at].
    destruct (child_subsurface_at c point); [by destruct Hno|].
    by destruct (WlSurface.first_child_at (rev rest) point).
Qed.

(** X6. Hit-testing depends only on the children that accept the point:
    taking every child that answers nothing at the local point out of the
    list leaves the answer of [subsurface_at] as it was. *)
Theorem subsurface_at_ignores_rejecting_children
    (s : WlSurface.t) (point : Point) :
  let local := point_minus point (WlSurface.offset_ s) in
  WlSurface.subsurface_at
    (WlSurface.with_children
       (filter (fun c => child_subsurface_at c local ≠ None)
               (WlSurface.children s)) s) point
  = WlSurface.subsurface_at s point.
Proof.
  intros local. unfold WlSurface.subsurface_at.
  cbn [WlSurface.with_children WlSurface.buffer_size_ WlSurface.offset_
       WlSurface.children WlSurface.input_shape WlSurface.this].
  destruct (WlSurface.buffer_size_ s); [|reflexivity].
  fold local. by rewrite first_child_at_accepting.
Qed.

(** ** Delivery of frame callbacks *)

Lemma deliver_sent (frames : list wl_resource) (flags : gset wl_resource) :
  NoDup (deliver frames flags).1 /\
  (forall frame, frame ∈ (deliver frames flags).1 <->
                 frame ∈ frames /\ frame ∉ flags).
Proof.
  revert flags. induction frames as [|f rest IH]; intros flags; cbn [deliver].
  - cbn [fst]. split; [constructor|]. intros frame.
    rewrite !elem_of_nil. tauto.
  - destruct (decide (f ∈ flags)) as [Hdead|Hlive].
    + rewrite (bool_decide_eq_true_2 _ Hdead).
      destruct (IH flags) as [Hnodup Hiff]. split; [exact Hnodup|].
      intros frame. rewrite Hiff, elem_of_cons.
      split; [tauto|]. intros [[->|?] ?]; tauto.
    + rewrite (bool_decide_eq_false_2 _ Hlive).
      destruct (IH ({[f]} ∪ flags)) as [Hnodup Hiff].
      destruct (deliver rest ({[f]} ∪ flags)) as [sent flags'].
      cbn [fst] in *. split.
      * apply NoDup_cons. split; [|exact Hnodup].
        rewrite Hiff, not_elem_of_union, not_elem_of_singleton. tauto.
      * intros frame. rewrite !elem_of_cons, Hiff, not_elem_of_union,
          not_elem_of_singleton.
        destruct (decide (frame = f)) as [->|Hne]; tauto.
Qed.

(** X7. [send_frame_callbacks] sends done at most once to a callback, never
    to one whose flag is up, and to every listed callback whose flag is
    down. Afterwards the list is empty and the flag of every callback that
    was listed is up, so running it again sends nothing and changes
    nothing. *)
Theorem send_frame_callbacks_once (m : WlSurface.Machine) :
  let frames := WlSurface.frame_callbacks (WlSurface.surface m) in
  exists sent m',
    WlSurface.send_frame_callbacks m = WlSurface.Returned tt m' /\
    WlSurface.events m' = WlSurface.events m ++ map send_done_event sent /\
    NoDup sent /\
    (forall frame,
       frame ∈ sent <-> frame ∈ frames /\ frame ∉ WlSurface.destroyed m) /\
    (forall frame,
       frame ∈ WlSurface.destroyed m' <->
       frame ∈ WlSurface.destroyed m \/ frame ∈ frames) /\
    WlSurface.frame_callbacks (WlSurface.surface m') = [] /\
    WlSurface.send_frame_callbacks m' = WlSurface.Returned tt m'.
Proof.
  intros frames. destruct m as [s D evs].
  cbn [WlSurface.surface] in frames. subst frames.
  rewrite send_frame_callbacks_run.
  destruct (deliver_sent (WlSurface.frame_callbacks s) D) as [Hnodup Hiff].
  eexists _, _. split; [reflexivity|].
  cbn [WlSurface.surface WlSurface.events WlSurface.destroyed].
  split; [reflexivity|]. split; [exact Hnodup|]. split; [exact Hiff|].
  split; [intros frame; apply deliver_flags|]. split; [reflexivity|].
  rewrite send_frame_callbacks_run. cbn. by rewrite app_nil_r.
Qed.

(** ** What a commit sends and when it throws *)

Lemma notified_app evs1 evs2 :
  notified (evs1 ++ evs2) = notified evs1 ++ notified evs2.
Proof.
  induction evs1 as [|e rest IH]; [reflexivity|].
  destruct e; cbn [notified app]; rewrite IH; reflexivity.
Qed.

Lemma notified_sent frames : notified (map send_done_event frames) = [].
Proof. induction frames as [|f rest IH]; [reflexivity|exact IH]. Qed.

Lemma notified_notify s : notified (notify_children s) = addresses s.
Proof.
  unfold notify_children, addresses.
  induction (WlSurface.children s) as [|c rest IH]; cbn; [|rewrite IH];
    reflexivity.
Qed.

Lemma notified_addresses (l : list ptr) :
  notified (map parent_has_committed l) = l.
Proof. induction l as [|c rest IH]; cbn; [|rewrite IH]; reflexivity. Qed.

Lemma posted_errors_app evs1 evs2 :
  posted_errors (evs1 ++ evs2) = posted_errors evs1 ++ posted_errors evs2.
Proof.
  induction evs1 as [|e rest IH]; [reflexivity|].
  destruct e; cbn [posted_errors app]; rewrite IH; reflexivity.
Qed.

Lemma posted_errors_sent frames :
  posted_errors (map send_done_event frames) = [].
Proof. induction frames as [|f rest IH]; [reflexivity|exact IH]. Qed.

Lemma posted_errors_addresses (l : list ptr) :
  posted_errors (map parent_has_committed l) = [].
Proof. induction l as [|c rest IH]; [reflexivity|exact IH]. Qed.

Section CommitOutcome.
Context {platform : Platform}.

(** X8. A commit that returns has sent only done events, followed by one
    [parent_has_committed] per child, in insertion order, and has posted no
    protocol error. A commit that throws has notified no child and sent no
    done: it has posted at most the one stride error, on the attached
    buffer. *)
Theorem commit_trace (state : WlSurfaceState.t) (m : WlSurface.Machine) :
  match WlSurface.commit state m with
  | WlSurface.Returned _ m' =>
      exists sent,
        WlSurface.events m'
        = WlSurface.events m ++ map send_done_event sent
          ++ map parent_has_committed (addresses (WlSurface.surface m)) /\
        notified (WlSurface.events m')
        = notified (WlSurface.events m) ++ addresses (WlSurface.surface m) /\
        posted_errors (WlSurface.events m') = posted_errors (WlSurface.events m)
  | WlSurface.Thrown _ m' =>
      notified (WlSurface.events m') = notified (WlSurface.events m) /\
      done_frames (WlSurface.events m') = done_frames (WlSurface.events m) /\
      (WlSurface.events m' = WlSurface.events m \/
       exists buffer,
         WlSurfaceState.buffer state = Some (Some buffer) /\
         WlSurface.events m'
         = WlSurface.events m
           ++ [wl_resource_post_error buffer WL_SHM_ERROR_INVALID_STRIDE])
  end.
Proof.
  destruct m as [s D evs]. cbn [WlSurface.surface WlSurface.events].
  assert (forall sent,
            let evs' := evs ++ map send_done_event sent
                        ++ map parent_has_committed (addresses s) in
            notified evs' = notified evs ++ addresses s /\
            posted_errors evs' = posted_errors evs) as Hshape.
  { intros sent evs'. subst evs'. split.
    - by rewrite !notified_app, notified_sent, notified_addresses.
    - by rewrite !posted_errors_app, posted_errors_sent,
        posted_errors_addresses, !app_nil_r. }
  assert (notify_children s
          = map parent_has_committed (addresses s)) as Hnotify.
  { unfold notify_children, addresses. by rewrite map_map. }
  destruct (WlSurfaceState.buffer state) as [[buffer|]|] eqn:Hbuffer.
  - destruct (importable buffer) eqn:Himportable.
    + rewrite (commit_imports _ _ _ _ _ Hbuffer Himportable).
      cbn [WlSurface.events]. exists []. cbn [map app].
      rewrite Hnotify. split; [reflexivity|]. apply (Hshape []).
    + unfold importable in Himportable.
      destruct (invalid_stride buffer) eqn:Hstride.
      * rewrite (commit_invalid_stride _ _ _ _ _ Hbuffer Hstride).
        cbn [WlSurface.events].
        rewrite notified_app, done_frames_app. cbn. rewrite !app_nil_r.
        split; [reflexivity|]. split; [reflexivity|]. right. eauto.
      * cbn [negb andb] in Himportable.
        apply bool_decide_eq_false_1 in Himportable.
        destruct (allocator_throws buffer) as [e|] eqn:Hthrows; [|done].
        rewrite (commit_allocator_throws _ _ _ _ _ _ Hbuffer Hstride Hthrows).
        cbn [WlSurface.events]. auto.
  - rewrite (commit_attach_none _ _ _ _ Hbuffer). cbn [WlSurface.events].
    eexists. rewrite <- app_assoc, Hnotify. split; [reflexivity|].
    apply Hshape.
  - rewrite (commit_no_buffer _ _ _ _ Hbuffer). cbn [WlSurface.events].
    eexists. rewrite <- app_assoc, Hnotify. split; [reflexivity|].
    apply Hshape.
Qed.

(** X9. [commit(state)] throws only over an attached buffer: a state that
    attaches nothing, or attaches none, always commits, and a state that
    attaches a buffer commits exactly when the buffer, if it is a
    shared-memory one, has a stride of at least width times bytes per pixel
    (the bound itself included) and the allocator accepts it. The product is
    the [int] the check computes: it wraps around at 2^31, so a width too
    large for the product to fit is measured against the wrapped value. *)
Theorem commit_returns_iff_accepted
    (state : WlSurfaceState.t) (m : WlSurface.Machine) :
  (exists state' m', WlSurface.commit state m = WlSurface.Returned state' m') <->
  match WlSurfaceState.buffer state with
  | Some (Some buffer) =>
      (forall shm_buffer,
         wl_shm_buffer_get buffer = Some shm_buffer ->
         int32_wrap
           (shm_width shm_buffer *
              MIR_BYTES_PER_PIXEL
                (wl_format_to_mir_format (shm_format shm_buffer)))
         <= shm_stride shm_buffer) /\
      allocator_throws buffer = None
  | _ => True
  end.
Proof.
  destruct m as [s D evs].
  destruct (WlSurfaceState.buffer state) as [[buffer|]|] eqn:Hbuffer.
  - assert (importable buffer = true <->
            (forall shm_buffer,
               wl_shm_buffer_get buffer = Some shm_buffer ->
               int32_wrap
                 (shm_width shm_buffer *
                    MIR_BYTES_PER_PIXEL
                      (wl_format_to_mir_format (shm_format shm_buffer)))
               <= shm_stride shm_buffer) /\
            allocator_throws buffer = None) as Hiff.
    { unfold importable, invalid_stride.
      rewrite andb_true_iff, negb_true_iff, bool_decide_eq_true.
      destruct (wl_shm_buffer_get buffer) as [shm|].
      - rewrite Z.ltb_ge. split.
        + intros [Hle Hok]. split; [|exact Hok].
          intros shm' Hshm. by injection Hshm as <-.
        + intros [Hle Hok]. split; [by apply Hle|exact Hok].
      - split; [|tauto]. intros [_ Hok]. split; [discriminate|exact Hok]. }
    rewrite <- Hiff. destruct (importable buffer) eqn:Himportable.
    + rewrite (commit_imports _ _ _ _ _ Hbuffer Himportable). split; eauto.
    + destruct (commit_rejects _ _ s D evs Hbuffer Himportable)
        as (e & evs' & -> & _).
      split; [intros (? & ? & ?); discriminate|discriminate].
  - rewrite (commit_attach_none _ _ _ _ Hbuffer). split; eauto.
  - rewrite (commit_no_buffer _ _ _ _ Hbuffer). split; eauto.
Qed.

(** X10. The state a commit gives back to its caller is the state it was
    given, except that the invalidation flag is raised when the commit
    imported a buffer, no explicit input region is in force afterwards and
    the buffer size has changed: only then must the implicit input region be
    recomputed. No commit lowers the flag. *)
Theorem commit_invalidates_on_resize
    (state : WlSurfaceState.t) (m : WlSurface.Machine) :
  match WlSurface.commit state m with
  | WlSurface.Returned state' m' =>
      let s := WlSurface.surface m in
      let s' := WlSurface.surface m' in
      let resized :=
        (exists buffer, WlSurfaceState.buffer state = Some (Some buffer)) /\
        WlSurface.input_shape s' = None /\
        WlSurface.buffer_size_ s' <> WlSurface.buffer_size_ s in
      (resized -> state' = WlSurfaceState.invalidate_surface_data state) /\
      (~ resized -> state' = state) /\
      (WlSurfaceState.surface_data_invalidated state = true ->
       WlSurfaceState.surface_data_invalidated state' = true)
  | WlSurface.Thrown _ _ => True
  end.
Proof.
  destruct m as [s D evs].
  destruct (WlSurfaceState.buffer state) as [[buffer|]|] eqn:Hbuffer.
  - destruct (importable buffer) eqn:Himportable.
    + rewrite (commit_imports _ _ _ _ _ Hbuffer Himportable).
      cbn [WlSurface.surface WlSurface.with_buffer_size_ WlSurface.with_stream
           WlSurface.input_shape WlSurface.buffer_size_].
      set (shape := WlSurface.input_shape (merge_pending state s)).
      set (new_size := stream_size _).
      destruct (decide (shape = None)) as [Hshape|Hshape];
        [rewrite (bool_decide_eq_true_2 _ Hshape)
        |rewrite (bool_decide_eq_false_2 _ Hshape)];
      (destruct (decide (Some new_size ≠ WlSurface.buffer_size_ s))
         as [Hsize|Hsize];
        [rewrite (bool_decide_eq_true_2 _ Hsize)
        |rewrite (bool_decide_eq_false_2 _ Hsize)]);
      cbn [andb]; (split; [|split]); try tauto; try reflexivity;
        try (intros Hres; exfalso; apply Hres; eauto).
    + by destruct (commit_rejects _ _ s D evs Hbuffer Himportable)
        as (e & evs' & -> & _).
  - rewrite (commit_attach_none _ _ _ _ Hbuffer).
    split; [|split]; try tauto. intros ((b & Hb) & _). discriminate.
  - rewrite (commit_no_buffer _ _ _ _ Hbuffer).
    split; [|split]; try tauto. intros ((b & Hb) & _). discriminate.
Qed.

End CommitOutcome.

Section MergedCommit.
Context {platform : Platform}.

Lemma stream_ext (st1 st2 : BufferStream) :
  stream_scale st1 = stream_scale st2 -> submitted st1 = submitted st2 ->
  st1 = st2.
Proof. destruct st1, st2; cbn; by intros -> ->. Qed.

Lemma commit_accepted_returns state m :
  accepted state = true ->
  exists state',
    WlSurface.commit state m
    = WlSurface.Returned state' (WlSurface.machine_of (WlSurface.commit state m)).
Proof.
  intros Haccepted. destruct m as [s D evs]. unfold accepted in Haccepted.
  destruct (WlSurfaceState.buffer state) as [[buffer|]|] eqn:Hbuffer.
  - rewrite (commit_imports _ _ _ _ _ Hbuffer Haccepted). eauto.
  - rewrite (commit_attach_none _ _ _ _ Hbuffer). eauto.
  - rewrite (commit_no_buffer _ _ _ _ Hbuffer). eauto.
Qed.

Lemma commit_buffer_size state m :
  let s := WlSurface.surface m in
  let s' := WlSurface.surface (WlSurface.machine_of (WlSurface.commit state m)) in
  WlSurface.buffer_size_ s' =
  match WlSurfaceState.buffer state with
  | None => WlSurface.buffer_size_ s
  | Some None => None
  | Some (Some buffer) =>
      if importable buffer
      then Some (stream_size (WlSurface.stream s'))
      else WlSurface.buffer_size_ s
  end.
Proof.
  destruct m as [s D evs]. cbn [WlSurface.surface].
  destruct (merge_pending_projections state s)
    as (_ & _ & _ & _ & Hsize & _).
  destruct (WlSurfaceState.buffer state) as [[buffer|]|] eqn:Hbuffer.
  - destruct (importable buffer) eqn:Himportable.
    + by rewrite (commit_imports _ _ _ _ _ Hbuffer Himportable).
    + by destruct (commit_rejects _ _ s D evs Hbuffer Himportable)
        as (e & evs' & -> & _).
  - by rewrite (commit_attach_none _ _ _ _ Hbuffer).
  - by rewrite (commit_no_buffer _ _ _ _ Hbuffer).
Qed.

(** X11. Caching a state and merging a later one into it with [update_from]
    before committing gives the same offset, input region and scale as
    committing the two states in turn. When the earlier state attaches no
    buffer, the stream and the buffer size come out the same as well. *)
Theorem commit_of_merged_states
    (earlier later : WlSurfaceState.t) (m : WlSurface.Machine) :
  accepted earlier = true ->
  let in_turn :=
    WlSurface.surface
      (WlSurface.machine_of
         ((WlSurface.commit earlier;; WlSurface.commit later) m)) in
  let at_once :=
    WlSurface.surface
      (WlSurface.machine_of
         (WlSurface.commit (WlSurfaceState.update_from later earlier) m)) in
  WlSurface.offset_ in_turn = WlSurface.offset_ at_once /\
  WlSurface.input_shape in_turn = WlSurface.input_shape at_once /\
  stream_scale (WlSurface.stream in_turn)
    = stream_scale (WlSurface.stream at_once) /\
  (WlSurfaceState.buffer earlier = None ->
   WlSurface.stream in_turn = WlSurface.stream at_once /\
   CurrentState in_turn = CurrentState at_once).
Proof.
  intros Haccepted in_turn at_once.
  destruct (commit_accepted_returns earlier m Haccepted) as [state' Hfirst].
  set (m1 := WlSurface.machine_of (WlSurface.commit earlier m)) in *.
  assert (in_turn
          = WlSurface.surface
              (WlSurface.machine_of (WlSurface.commit later m1))) as Hturn.
  { subst in_turn. by rewrite bind_run, Hfirst. }
  pose proof (commit_current_state earlier m) as H1. fold m1 in H1.
  pose proof (commit_current_state later m1) as H2. rewrite <- Hturn in H2.
  pose proof (commit_current_state
                (WlSurfaceState.update_from later earlier) m) as H3.
  fold at_once in H3.
  unfold CurrentState in H1, H2, H3.
  injection H1 as Hs1 Ho1 Hi1 Hc1. injection H2 as Hs2 Ho2 Hi2 Hc2.
  injection H3 as Hs3 Ho3 Hi3 Hc3.
  assert (WlSurface.offset_ in_turn = WlSurface.offset_ at_once) as Hoffset.
  { rewrite Ho2, Ho3, Ho1. unfold WlSurfaceState.update_from; cbn.
    by destruct (WlSurfaceState.offset later), (WlSurfaceState.offset earlier). }
  assert (WlSurface.input_shape in_turn = WlSurface.input_shape at_once)
    as Hinput.
  { rewrite Hi2, Hi3, Hi1. unfold WlSurfaceState.update_from; cbn.
    by destruct (WlSurfaceState.input_shape later),
         (WlSurfaceState.input_shape earlier). }
  assert (stream_scale (WlSurface.stream in_turn)
          = stream_scale (WlSurface.stream at_once)) as Hscale.
  { rewrite Hc2, Hc3, Hc1. unfold WlSurfaceState.update_from; cbn.
    by destruct (WlSurfaceState.scale later), (WlSurfaceState.scale earlier). }
  split; [exact Hoffset|]. split; [exact Hinput|]. split; [exact Hscale|].
  intros Hnone.
  pose proof (commit_submitted earlier m) as Hb1. fold m1 in Hb1.
  pose proof (commit_submitted later m1) as Hb2. rewrite <- Hturn in Hb2.
  pose proof (commit_submitted
                (WlSurfaceState.update_from later earlier) m) as Hb3.
  fold at_once in Hb3.
  destruct (commit_preserves earlier m) as (_ & _ & Hthis & _). fold m1 in Hthis.
  assert (WlSurfaceState.buffer (WlSurfaceState.update_from later earlier)
          = WlSurfaceState.buffer later) as Hmerged.
  { unfold WlSurfaceState.update_from; cbn. rewrite Hnone.
    by destruct (WlSurfaceState.buffer later). }
  rewrite Hnone, app_nil_r in Hb1. rewrite Hb1, Hthis in Hb2.
  rewrite Hmerged in Hb3.
  assert (WlSurface.stream in_turn = WlSurface.stream at_once) as Hstream.
  { apply stream_ext; [exact Hscale|]. by rewrite Hb2, Hb3. }
  split; [exact Hstream|]. unfold CurrentState.
  rewrite Hoffset, Hinput, Hscale.
  assert (WlSurface.buffer_size_ in_turn = WlSurface.buffer_size_ at_once)
    as ->; [|reflexivity].
  pose proof (commit_buffer_size earlier m) as Hz1. fold m1 in Hz1.
  pose proof (commit_buffer_size later m1) as Hz2.
  pose proof (commit_buffer_size
                (WlSurfaceState.update_from later earlier) m) as Hz3.
  cbn zeta in Hz1, Hz2, Hz3. rewrite <- Hturn in Hz2. fold at_once in Hz3.
  rewrite Hnone in Hz1. rewrite Hmerged in Hz3.
  rewrite Hz2, Hz3, Hz1, Hstream. reflexivity.
Qed.

End MergedCommit.

Lemma commit_of_merged_states_witness :
  let earlier :=
    WlSurfaceState.mk None (Some 2) (Some {| dx := 5; dy := 5 |}) None
                      [10%nat] false in
  let later := Fixture.attaching 8%nat [11%nat] in
  CurrentState
    (WlSurface.surface
       (WlSurface.machine_of
          ((WlSurface.commit (platform := Fixture.platform) earlier;;
            WlSurface.commit (platform := Fixture.platform) later)
             (Fixture.machine Fixture.fresh))))
  = CurrentState
      (WlSurface.surface
         (WlSurface.machine_of
            (WlSurface.commit (platform := Fixture.platform)
               (WlSurfaceState.update_from later earlier)
               (Fixture.machine Fixture.fresh)))).
Proof.
  cbn zeta.
  apply (commit_of_merged_states (platform := Fixture.platform)
           (WlSurfaceState.mk None (Some 2) (Some {| dx := 5; dy := 5 |}) None
                              [10%nat] false)
           (Fixture.attaching 8%nat [11%nat])
           (Fixture.machine Fixture.fresh) eq_refl).
  reflexivity.
Defined.

(** ** Requests before a commit *)

Lemma from_option_last_app {A} (x : option A) (l1 l2 : list A) :
  from_option Some (from_option Some x (last l1)) (last l2)
  = from_option Some x (last (l1 ++ l2)).
Proof. rewrite last_app. by destruct (last l2). Qed.

Lemma default_last_app {A} (x : A) (l1 l2 : list A) :
  default (default x (last l1)) (last l2) = default x (last (l1 ++ l2)).
Proof. rewrite last_app. by destruct (last l2). Qed.

Lemma with_pending_same s : WlSurface.with_pending (WlSurface.pending s) s = s.
Proof. by destruct s. Qed.

Lemma handle_run request s D evs :
  exists after warnings,
    handle request
      {| WlSurface.surface := s; WlSurface.destroyed := D;
         WlSurface.events := evs |} =
    WlSurface.Returned tt
      {| WlSurface.surface := WlSurface.with_pending after s;
         WlSurface.destroyed := D;
         WlSurface.events := evs ++ map log_warning warnings |} /\
    pending_after [request] (WlSurface.pending s) after.
Proof.
  destruct request as [buffer x y| | |new_callback| |region| |scale|offset];
    cbn [handle].
  - unfold WlSurface.attach.
    destruct (negb (x =? 0) || negb (y =? 0)); steps;
      [eexists _, [_]|eexists _, []];
      (split; [cbn [map]; rewrite ?app_nil_r; reflexivity|]);
      repeat split; cbn; rewrite ?app_nil_r; reflexivity.
  - exists (WlSurface.pending s), []. rewrite update_run.
    cbn -[WlSurface.with_pending]. rewrite with_pending_same, !app_nil_r.
    split; [reflexivity|].
    repeat split; cbn; rewrite ?app_nil_r; reflexivity.
  - exists (WlSurface.pending s), []. rewrite update_run.
    cbn -[WlSurface.with_pending]. rewrite with_pending_same, !app_nil_r.
    split; [reflexivity|].
    repeat split; cbn; rewrite ?app_nil_r; reflexivity.
  - eexists _, []. rewrite update_run. cbn [map]. rewrite app_nil_r.
    split; [reflexivity|]. repeat split; cbn; rewrite ?app_nil_r; reflexivity.
  - exists (WlSurface.pending s), []. rewrite update_run.
    cbn -[WlSurface.with_pending]. rewrite with_pending_same, !app_nil_r.
    split; [reflexivity|].
    repeat split; cbn; rewrite ?app_nil_r; reflexivity.
  - eexists _, []. rewrite update_run. cbn [map]. rewrite app_nil_r.
    unfold WlSurface.set_input_region.
    destruct region; (split; [reflexivity|]); repeat split;
      cbn; by rewrite ?app_nil_r.
  - exists (WlSurface.pending s), []. rewrite update_run.
    cbn -[WlSurface.with_pending]. rewrite with_pending_same, !app_nil_r.
    split; [reflexivity|].
    repeat split; cbn; rewrite ?app_nil_r; reflexivity.
  - eexists _, []. rewrite update_run. cbn [map]. rewrite app_nil_r.
    split; [reflexivity|]. repeat split; cbn; rewrite ?app_nil_r; reflexivity.
  - eexists _, []. rewrite update_run. cbn [map]. rewrite app_nil_r.
    split; [reflexivity|]. repeat split; cbn; rewrite ?app_nil_r; reflexivity.
Qed.

Lemma handle_all_run requests s D evs :
  exists after warnings,
    handle_all requests
      {| WlSurface.surface := s; WlSurface.destroyed := D;
         WlSurface.events := evs |} =
    WlSurface.Returned tt
      {| WlSurface.surface := WlSurface.with_pending after s;
         WlSurface.destroyed := D;
         WlSurface.events := evs ++ map log_warning warnings |} /\
    pending_after requests (WlSurface.pending s) after.
Proof.
  revert s evs. induction requests as [|request rest IH]; intros s evs.
  - exists (WlSurface.pending s), []. unfold handle_all.
    cbn [WlSurface.for_each map]. rewrite ret_run, with_pending_same, app_nil_r.
    split; [reflexivity|]. repeat split; cbn; rewrite ?app_nil_r; reflexivity.
  - unfold handle_all in *. cbn [WlSurface.for_each]. rewrite bind_run.
    destruct (handle_run request s D evs)
      as (mid & w1 & -> & Hb & Hs & Ho & Hi & Hf & Hv).
    destruct (IH (WlSurface.with_pending mid s) (evs ++ map log_warning w1))
      as (after & w2 & -> & Hb' & Hs' & Ho' & Hi' & Hf' & Hv').
    exists after, (w1 ++ w2). rewrite map_app, app_assoc.
    split; [reflexivity|].
    cbn [WlSurface.pending WlSurface.with_pending] in *.
    unfold pending_after.
    change (request :: rest) with ([request] ++ rest).
    unfold attached, scaled, positioned, input_regions, framed in *.
    rewrite !omap_app.
    rewrite Hb', Hs', Ho', Hi', Hf', Hv', Hb, Hs, Ho, Hi, Hf, Hv.
    rewrite !from_option_last_app, <- app_assoc.
    rewrite default_last_app.
    repeat split.
Qed.

(** X12. No request takes effect before the commit: after any run of
    requests the surface differs from what it was in its pending state only.
    Buffer size, offset, input region, scale, stream, callback list, children
    and role are untouched, no flag is raised, and nothing is sent but
    warnings of the log. *)
Theorem requests_are_double_buffered
    (requests : list Request) (m : WlSurface.Machine) :
  exists m' warnings,
    handle_all requests m = WlSurface.Returned tt m' /\
    WlSurface.surface m'
    = WlSurface.with_pending (WlSurface.pending (WlSurface.surface m'))
                             (WlSurface.surface m) /\
    CurrentState (WlSurface.surface m') = CurrentState (WlSurface.surface m) /\
    WlSurface.frame_callbacks (WlSurface.surface m')
    = WlSurface.frame_callbacks (WlSurface.surface m) /\
    WlSurface.destroyed m' = WlSurface.destroyed m /\
    WlSurface.events m' = WlSurface.events m ++ map log_warning warnings.
Proof.
  destruct m as [s D evs].
  destruct (handle_all_run requests s D evs) as (after & warnings & Hrun & _).
  eexists _, warnings. split; [exact Hrun|].
  cbn [WlSurface.surface WlSurface.destroyed WlSurface.events].
  repeat split.
Qed.

(** X13. What the commit will find in the pending state after a run of
    requests: the buffer of the last attach (its x and y are dropped), the
    scale of the last [set_buffer_scale], the offset of the last
    [set_pending_offset], the region of the last [set_input_region], each
    left as it was when the run has no such request, and the callbacks of the
    frame requests appended in the order they arrived. Damage, opaque-region
    and transform requests leave no trace. *)
Theorem requests_fill_pending
    (requests : list Request) (m : WlSurface.Machine) :
  let before := WlSurface.pending (WlSurface.surface m) in
  let after :=
    WlSurface.pending
      (WlSurface.surface (WlSurface.machine_of (handle_all requests m))) in
  WlSurfaceState.buffer after
    = from_option Some (WlSurfaceState.buffer before) (last (attached requests)) /\
  WlSurfaceState.scale after
    = from_option Some (WlSurfaceState.scale before) (last (scaled requests)) /\
  WlSurfaceState.offset after
    = default (WlSurfaceState.offset before) (last (positioned requests)) /\
  WlSurfaceState.input_shape after
    = from_option Some (WlSurfaceState.input_shape before)
                  (last (input_regions requests)) /\
  WlSurfaceState.frame_callbacks after
    = WlSurfaceState.frame_callbacks before ++ framed requests /\
  WlSurfaceState.surface_data_invalidated after
    = WlSurfaceState.surface_data_invalidated before.
Proof.
  destruct m as [s D evs].
  destruct (handle_all_run requests s D evs) as (after & warnings & -> & Hafter).
  exact Hafter.
Qed.

(** ** Mapping and unmapping *)

Section Mapping.
Context {platform : Platform}.

Lemma attach_commit_run buffer x y s D evs :
  WlSurface.role s = null_role ->
  exists state evs1,
    WlSurfaceState.buffer state = Some buffer /\
    (WlSurface.attach buffer x y;; WlSurface.commit_pending)
      {| WlSurface.surface := s; WlSurface.destroyed := D;
         WlSurface.events := evs |}
    = WlSurface.NullWlSurfaceRole_commit state
        {| WlSurface.surface :=
             WlSurface.with_pending WlSurfaceState.empty s;
           WlSurface.destroyed := D; WlSurface.events := evs1 |}.
Proof.
  intros Hrole.
  destruct (handle_run (request_attach buffer x y) s D evs)
    as (after & warnings & Hrun & Hbuffer & _).
  cbn [handle] in Hrun. cbn in Hbuffer.
  rewrite bind_run, Hrun, commit_pending_run, dispatch_commit_null
    by exact Hrole.
  eexists _, _. split; [|reflexivity].
  destruct (pending_to_commit_projections (WlSurface.with_pending after s))
    as (_ & _ & _ & -> & _).
  exact Hbuffer.
Qed.

(** X14. On a surface with the null role, attach none followed by commit
    always succeeds and unmaps the surface: it has no buffer size, hit-testing
    answers nothing at every point, the callback list is empty and the stream
    has received no buffer. Attach of a buffer the import accepts followed by
    commit always succeeds and maps it: the buffer is the last one submitted
    to the stream and the buffer size is the size the stream then reports. *)
Theorem attach_commit_maps_and_unmaps (m : WlSurface.Machine) (x y : Z) :
  WlSurface.role (WlSurface.surface m) = null_role ->
  let s := WlSurface.surface m in
  let unmapping := (WlSurface.attach None x y;; WlSurface.commit_pending) m in
  let unmapped := WlSurface.surface (WlSurface.machine_of unmapping) in
  (exists m', unmapping = WlSurface.Returned tt m') /\
  WlSurface.buffer_size_ unmapped = None /\
  (forall point, WlSurface.subsurface_at unmapped point = None) /\
  WlSurface.frame_callbacks unmapped = [] /\
  submitted (WlSurface.stream unmapped) = submitted (WlSurface.stream s) /\
  (forall buffer,
     importable buffer = true ->
     let mapping :=
       (WlSurface.attach (Some buffer) x y;; WlSurface.commit_pending) m in
     let mapped := WlSurface.surface (WlSurface.machine_of mapping) in
     (exists m', mapping = WlSurface.Returned tt m') /\
     WlSurface.buffer_size_ mapped
       = Some (stream_size (WlSurface.stream mapped)) /\
     submitted (WlSurface.stream mapped)
       = submitted (WlSurface.stream s) ++ [imported (WlSurface.this s) buffer]).
Proof.
  intros Hrole s unmapping unmapped. destruct m as [s0 D evs].
  cbn [WlSurface.surface] in *. subst s.
  assert (forall buffer state evs1,
            WlSurfaceState.buffer state = Some buffer ->
            accepted state = true ->
            let m0 := {| WlSurface.surface :=
                           WlSurface.with_pending WlSurfaceState.empty s0;
                         WlSurface.destroyed := D;
                         WlSurface.events := evs1 |} in
            exists m',
              WlSurface.NullWlSurfaceRole_commit state m0
              = WlSurface.Returned tt m' /\
              m' = WlSurface.machine_of (WlSurface.commit state m0))
    as Hreturns.
  { intros buffer state evs1 Hbuffer Haccepted m0.
    destruct (commit_accepted_returns state m0 Haccepted) as [state' Hret].
    unfold WlSurface.NullWlSurfaceRole_commit.
    rewrite bind_run, Hret, ret_run. eauto. }
  split; [|split; [|split; [|split; [|split]]]].
  - subst unmapping.
    destruct (attach_commit_run None x y s0 D evs Hrole)
      as (state & evs1 & Hbuffer & ->).
    destruct (Hreturns None state evs1 Hbuffer) as (m' & -> & _); [|eauto].
    unfold accepted. by rewrite Hbuffer.
  - subst unmapped unmapping.
    destruct (attach_commit_run None x y s0 D evs Hrole)
      as (state & evs1 & Hbuffer & ->).
    rewrite NullWlSurfaceRole_commit_machine.
    pose proof (commit_buffer_size state
      {| WlSurface.surface := WlSurface.with_pending WlSurfaceState.empty s0;
         WlSurface.destroyed := D; WlSurface.events := evs1 |}) as Hsize.
    cbn zeta in Hsize. by rewrite Hbuffer in Hsize.
  - intros point. apply subsurface_at_unmapped.
    subst unmapped unmapping.
    destruct (attach_commit_run None x y s0 D evs Hrole)
      as (state & evs1 & Hbuffer & ->).
    rewrite NullWlSurfaceRole_commit_machine.
    pose proof (commit_buffer_size state
      {| WlSurface.surface := WlSurface.with_pending WlSurfaceState.empty s0;
         WlSurface.destroyed := D; WlSurface.events := evs1 |}) as Hsize.
    cbn zeta in Hsize. by rewrite Hbuffer in Hsize.
  - subst unmapped unmapping.
    destruct (attach_commit_run None x y s0 D evs Hrole)
      as (state & evs1 & Hbuffer & ->).
    rewrite NullWlSurfaceRole_commit_machine.
    apply (commit_not_attaching state
             (WlSurface.with_pending WlSurfaceState.empty s0) D evs1).
    by right.
  - subst unmapped unmapping.
    destruct (attach_commit_run None x y s0 D evs Hrole)
      as (state & evs1 & Hbuffer & ->).
    rewrite NullWlSurfaceRole_commit_machine, commit_submitted, Hbuffer.
    cbn [WlSurface.surface WlSurface.with_pending WlSurface.stream].
    apply app_nil_r.
  - intros buffer Himportable.
    destruct (attach_commit_run (Some buffer) x y s0 D evs Hrole)
      as (state & evs1 & Hbuffer & ->).
    assert (accepted state = true) as Haccepted
      by (unfold accepted; by rewrite Hbuffer).
    split; [|split].
    + destruct (Hreturns _ state evs1 Hbuffer Haccepted) as (m' & -> & _).
      eauto.
    + rewrite NullWlSurfaceRole_commit_machine.
      pose proof (commit_buffer_size state
        {| WlSurface.surface := WlSurface.with_pending WlSurfaceState.empty s0;
           WlSurface.destroyed := D; WlSurface.events := evs1 |}) as Hsize.
      cbn zeta in Hsize. by rewrite Hbuffer, Himportable in Hsize.
    + rewrite NullWlSurfaceRole_commit_machine, commit_submitted, Hbuffer,
        Himportable.
      reflexivity.
Qed.

End Mapping.

Lemma attach_commit_maps_and_unmaps_witness :
  let mapping :=
    (WlSurface.attach (Some 8%nat) 0 0;;
     WlSurface.commit_pending (platform := Fixture.platform))
      (Fixture.machine Fixture.fresh) in
  let unmapping :=
    (WlSurface.attach None 0 0;;
     WlSurface.commit_pending (platform := Fixture.platform))
      (WlSurface.machine_of mapping) in
  WlSurface.buffer_size_ (WlSurface.surface (WlSurface.machine_of mapping))
    = Some {| width := 4; height := 4 |} /\
  WlSurface.buffer_size_ (WlSurface.surface (WlSurface.machine_of unmapping))
    = None.
Proof.
  cbn zeta. split; [reflexivity|].
  apply (attach_commit_maps_and_unmaps (platform := Fixture.platform)
           (WlSurface.machine_of
              ((WlSurface.attach (Some 8%nat) 0 0;;
                WlSurface.commit_pending (platform := Fixture.platform))
                 (Fixture.machine Fixture.fresh))) 0 0).
  reflexivity.
Defined.

(** ** The accumulated input shape *)

Lemma contains_translated tl sz (before after : Displacement) (point : Point) :
  contains {| top_left := point_plus tl (displacement_plus before after);
              size := sz |} point
  = contains {| top_left := tl; size := sz |}
             (point_minus (point_minus point before) after).
Proof.
  apply Bool.eq_iff_eq_true. rewrite !contains_true.
  destruct tl as [tx ty], sz as [w h], before as [bx by_], after as [ax ay],
    point as [px py].
  unfold geom.left, geom.right, geom.top, geom.bottom, point_plus, point_minus,
    displacement_plus.
  cbn [x y dx dy width height top_left size]. lia.
Qed.

Lemma contains_zero_sized (r : Rectangle) (point : Point) :
  size r = Size0 -> contains r point = false.
Proof. unfold contains. by intros ->. Qed.

Lemma push_clipped_map rects offset surface_rect accumulator :
  WlSurface.push_clipped rects offset surface_rect accumulator
  = accumulator ++ map (clipped offset surface_rect) rects.
Proof.
  revert accumulator. induction rects as [|rect rest IH]; intros accumulator;
    cbn [WlSurface.push_clipped map].
  - by rewrite app_nil_r.
  - rewrite IH, <- app_assoc. reflexivity.
Qed.

Lemma own_input_rectangles_eq s parent_offset :
  let offset := displacement_plus parent_offset (WlSurface.offset_ s) in
  let surface_rect :=
    {| top_left := point_plus Point0 offset;
       size := default Size0 (WlSurface.buffer_size_ s) |} in
  own_input_rectangles s parent_offset =
  match WlSurface.input_shape s with
  | Some rects =>
      map (clipped offset surface_rect) rects
      ++ (if bool_decide (rects = []) then [Rectangle0] else [])
  | None => [surface_rect]
  end.
Proof.
  unfold own_input_rectangles, WlSurface.populate_surface_data.
  cbn [WlSurface.with_children WlSurface.children WlSurface.input_shape
       WlSurface.offset_ WlSurface.buffer_size_ WlSurface.this
       WlSurface.populate_children snd].
  destruct (WlSurface.input_shape s) as [rects|]; [|reflexivity].
  rewrite push_clipped_map. cbn [app].
  destruct (bool_decide (rects = [])); [reflexivity|by rewrite app_nil_r].
Qed.

Lemma populate_surface_data_own s buffer_streams accumulator parent_offset :
  WlSurface.populate_surface_data s buffer_streams accumulator parent_offset
  = WlSurface.populate_children (WlSurface.children s)
      (buffer_streams
       ++ [ {| spec_stream := WlSurface.this s;
               spec_displacement :=
                 displacement_plus parent_offset (WlSurface.offset_ s);
               spec_size := None |} ])
      (accumulator ++ own_input_rectangles s parent_offset)
      (displacement_plus parent_offset (WlSurface.offset_ s)).
Proof.
  pose proof (own_input_rectangles_eq s parent_offset) as Hown.
  cbn zeta in Hown. rewrite Hown. unfold WlSurface.populate_surface_data.
  destruct (WlSurface.input_shape s) as [rects|]; [|reflexivity].
  rewrite push_clipped_map.
  destruct (bool_decide (rects = [])); by rewrite ?app_assoc, ?app_nil_r.
Qed.

(** X15. What a surface itself adds to the accumulated input shape is never
    empty and never reaches beyond the surface: it is one rectangle per
    explicit input rectangle (one zero-size rectangle when the explicit list
    is empty, the whole surface when no region is set), and every point of a
    pushed rectangle lies in the surface's rectangle at the cumulative
    offset. What was accumulated before is kept in front of it, and the
    surface's stream is listed once, at the cumulative offset, before those
    of the children. *)
Theorem populate_surface_data_own_contribution
    (s : WlSurface.t) (buffer_streams : list StreamSpecification)
    (input_shape_accumulator : list Rectangle) (parent_offset : Displacement) :
  let offset := displacement_plus parent_offset (WlSurface.offset_ s) in
  let surface_rect :=
    {| top_left := point_plus Point0 offset;
       size := default Size0 (WlSurface.buffer_size_ s) |} in
  let own := own_input_rectangles s parent_offset in
  WlSurface.populate_surface_data s buffer_streams input_shape_accumulator
                                  parent_offset
  = WlSurface.populate_children (WlSurface.children s)
      (buffer_streams
       ++ [ {| spec_stream := WlSurface.this s; spec_displacement := offset;
               spec_size := None |} ])
      (input_shape_accumulator ++ own) offset /\
  length own
  = match WlSurface.input_shape s with
    | Some rects => Nat.max 1 (length rects)
    | None => 1%nat
    end /\
  (forall rect point,
     rect ∈ own -> contains rect point = true ->
     contains surface_rect point = true).
Proof.
  intros offset surface_rect own.
  split; [apply populate_surface_data_own|].
  pose proof (own_input_rectangles_eq s parent_offset) as Hown.
  cbn zeta in Hown. fold offset surface_rect own in Hown. rewrite Hown.
  destruct (WlSurface.input_shape s) as [rects|].
  - split.
    + rewrite length_app, length_map.
      destruct rects as [|rect rest]; cbn; lia.
    + intros rect point Hin Hcontains.
      apply elem_of_app in Hin as [Hin|Hin].
      * apply list_elem_of_fmap in Hin as (original & -> & _).
        unfold clipped in Hcontains.
        rewrite contains_intersection_with in Hcontains.
        by apply andb_true_iff in Hcontains as [_ ?].
      * destruct (bool_decide (rects = [])).
        -- apply list_elem_of_singleton in Hin. subst rect.
           by rewrite contains_zero_size in Hcontains.
        -- by apply elem_of_nil in Hin.
  - split; [reflexivity|].
    intros rect point Hin Hcontains.
    apply list_elem_of_singleton in Hin. by subst.
Qed.

Lemma any_rect_hit_clipped rects (size : Size)
    (parent_offset own_offset : Displacement) (point : Point) :
  WlSurface.any_rect_hit rects {| top_left := Point0; size := size |}
    (point_minus (point_minus point parent_offset) own_offset)
  = existsb (fun rect => contains rect point)
      (map (clipped (displacement_plus parent_offset own_offset)
              {| top_left :=
                   point_plus Point0
                     (displacement_plus parent_offset own_offset);
                 size := size |})
           rects).
Proof.
  induction rects as [|rect rest IH]; [reflexivity|].
  cbn [WlSurface.any_rect_hit map existsb]. rewrite <- IH.
  unfold clipped at 1.
  rewrite !contains_intersection_with, !contains_translated.
  destruct rect as [tl sz]. cbn [top_left geom.size].
  by destruct (contains _ _ && contains _ _).
Qed.

(** X16. Hit-testing and region accumulation agree on a surface's own input
    area: leaving the children aside, [subsurface_at] answers the surface at
    a point exactly when one of the rectangles the surface adds to the
    accumulated input shape contains that point, and nothing otherwise. This
    holds for mapped and unmapped surfaces and for explicit, empty and unset
    input regions. *)
Theorem hit_test_agrees_with_input_shape
    (s : WlSurface.t) (parent_offset : Displacement) (point : Point) :
  WlSurface.subsurface_at (WlSurface.with_children [] s)
    (point_minus point parent_offset)
  = if existsb (fun rect => contains rect point)
         (own_input_rectangles s parent_offset)
    then Some (WlSurface.this s)
    else None.
Proof.
  pose proof (own_input_rectangles_eq s parent_offset) as Hown.
  cbn zeta in Hown. rewrite Hown. unfold WlSurface.subsurface_at.
  cbn [WlSurface.with_children WlSurface.buffer_size_ WlSurface.offset_
       WlSurface.children WlSurface.input_shape WlSurface.this rev
       WlSurface.first_child_at].
  destruct (WlSurface.buffer_size_ s) as [size|]; cbn [default].
  - destruct (WlSurface.input_shape s) as [rects|]; cbn [default].
    + rewrite existsb_app, (any_rect_hit_clipped rects size).
      destruct (bool_decide (rects = [])); cbn [existsb];
        rewrite ?contains_zero_size, ?orb_false_r; reflexivity.
    + cbn [WlSurface.any_rect_hit existsb].
      rewrite contains_intersection_with, contains_translated.
      by destruct (contains _ _).
  - assert (forall rects,
              existsb (fun rect => contains rect point) rects = false ->
              (if existsb (fun rect => contains rect point) rects
               then Some (WlSurface.this s) else None) = None) as Hnone
      by (by intros rects ->).
    symmetry. apply Hnone.
    destruct (WlSurface.input_shape s) as [rects|].
    + rewrite existsb_app. apply orb_false_iff. split.
      * clear Hown. induction rects as [|rect rest IH]; [reflexivity|].
        cbn [map existsb]. rewrite IH, orb_false_r.
        unfold clipped. rewrite contains_intersection_with.
        apply andb_false_iff. right. by apply contains_zero_sized.
      * by destruct (bool_decide (rects = [])).
    + cbn [existsb]. by rewrite contains_zero_sized.
Qed.

(** ** Commits and roles *)

Section RoleCommit.
Context {platform : Platform}.

(** X17. Under a role defined elsewhere [commit()] applies nothing itself:
    the surface keeps its current state, callback list and stream, the
    pending state is cleared, and the role is handed one state. That state
    has the buffer, scale, callbacks and invalidation flag of the pending
    state, and it carries an offset, or an input shape, exactly when the
    pending one differs from the current one. *)
Theorem commit_under_a_role (m : WlSurface.Machine) (r : ptr) :
  WlSurface.role (WlSurface.surface m) = role_object r ->
  let s := WlSurface.surface m in
  let pending := WlSurface.pending s in
  exists state,
    WlSurface.commit_pending m
    = WlSurface.Returned tt
        {| WlSurface.surface := WlSurface.with_pending WlSurfaceState.empty s;
           WlSurface.destroyed := WlSurface.destroyed m;
           WlSurface.events := WlSurface.events m ++ [role_commit r state] |} /\
    WlSurfaceState.buffer state = WlSurfaceState.buffer pending /\
    WlSurfaceState.scale state = WlSurfaceState.scale pending /\
    WlSurfaceState.frame_callbacks state
      = WlSurfaceState.frame_callbacks pending /\
    WlSurfaceState.surface_data_invalidated state
      = WlSurfaceState.surface_data_invalidated pending /\
    (forall v, WlSurfaceState.offset state = Some v <->
               WlSurfaceState.offset pending = Some v /\
               v <> WlSurface.offset_ s) /\
    (forall v, WlSurfaceState.input_shape state = Some v <->
               WlSurfaceState.input_shape pending = Some v /\
               v <> WlSurface.input_shape s).
Proof.
  intros Hrole s pending. destruct m as [s0 D evs].
  cbn [WlSurface.surface WlSurface.destroyed WlSurface.events] in *.
  subst s pending. exists (pending_to_commit s0).
  rewrite commit_pending_run.
  rewrite (dispatch_commit_role _ r
             (WlSurface.with_pending WlSurfaceState.empty s0) _ _ Hrole).
  split; [reflexivity|].
  destruct (pending_to_commit_projections s0)
    as (_ & _ & Hscale & Hbuffer & Hframes & Hinvalidated).
  destruct (pending_to_commit_fields s0) as [Hoffset Hinput].
  split; [exact Hbuffer|]. split; [exact Hscale|]. split; [exact Hframes|].
  split; [exact Hinvalidated|]. rewrite Hoffset, Hinput. split.
  - intros v.
    destruct (decide (WlSurfaceState.offset (WlSurface.pending s0)
                      = Some (WlSurface.offset_ s0))) as [Hsame|Hsame];
      [rewrite (bool_decide_eq_true_2 _ Hsame)
      |rewrite (bool_decide_eq_false_2 _ Hsame)].
    + split; [discriminate|]. intros [Hv Hne]. congruence.
    + split; [|tauto]. intros Hv. split; [exact Hv|]. congruence.
  - intros v.
    destruct (decide (WlSurfaceState.input_shape (WlSurface.pending s0)
                      = Some (WlSurface.input_shape s0))) as [Hsame|Hsame];
      [rewrite (bool_decide_eq_true_2 _ Hsame)
      |rewrite (bool_decide_eq_false_2 _ Hsame)].
    + split; [discriminate|]. intros [Hv Hne]. congruence.
    + split; [|tauto]. intros Hv. split; [exact Hv|]. congruence.
Qed.

(** X18. [commit(state)] never changes the role, the pending state, the
    child list or the address of the surface, whether it returns or
    throws. *)
Theorem commit_keeps_role_pending_children
    (state : WlSurfaceState.t) (m : WlSurface.Machine) :
  let s := WlSurface.surface m in
  let s' := WlSurface.surface (WlSurface.machine_of (WlSurface.commit state m)) in
  WlSurface.role s' = WlSurface.role s /\
  WlSurface.pending s' = WlSurface.pending s /\
  WlSurface.children s' = WlSurface.children s /\
  WlSurface.this s' = WlSurface.this s.
Proof.
  intros s s'. destruct (commit_preserves state m) as (Hp & Hr & Ht & Hc).
  fold s s' in Hp, Hr, Ht, Hc. tauto.
Qed.

(** X19. End to end, on a surface with the null role: after a run of
    requests and a commit, the offset is the one of the last
    [set_pending_offset] that gave one, the input region the one of the last
    [set_input_region], the scale the one of the last [set_buffer_scale],
    each falling back to what was pending before the run and then to the
    current value; and nothing is left pending. *)
Theorem requests_then_commit (requests : list Request) (m : WlSurface.Machine) :
  WlSurface.role (WlSurface.surface m) = null_role ->
  let s := WlSurface.surface m in
  let before := WlSurface.pending s in
  let s' :=
    WlSurface.surface
      (WlSurface.machine_of
         ((handle_all requests;; WlSurface.commit_pending) m)) in
  WlSurface.offset_ s'
    = default (WlSurface.offset_ s)
        (default (WlSurfaceState.offset before) (last (positioned requests))) /\
  WlSurface.input_shape s'
    = default (WlSurface.input_shape s)
        (from_option Some (WlSurfaceState.input_shape before)
                     (last (input_regions requests))) /\
  stream_scale (WlSurface.stream s')
    = default (stream_scale (WlSurface.stream s))
        (from_option Some (WlSurfaceState.scale before)
                     (last (scaled requests))) /\
  WlSurface.pending s' = WlSurfaceState.empty.
Proof.
  intros Hrole s before s'. destruct m as [s0 D evs].
  cbn [WlSurface.surface] in *. subst s before.
  destruct (handle_all_run requests s0 D evs)
    as (after & warnings & Hrun & _ & Hscale & Hoffset & Hinput & _).
  subst s'. rewrite bind_run, Hrun.
  destruct (commit_pending_current_state
              {| WlSurface.surface := WlSurface.with_pending after s0;
                 WlSurface.destroyed := D;
                 WlSurface.events := evs ++ map log_warning warnings |} Hrole)
    as [Hcurrent Hpending].
  unfold CurrentState in Hcurrent.
  cbn [WlSurface.surface WlSurface.with_pending WlSurface.pending
       WlSurface.offset_ WlSurface.input_shape WlSurface.stream] in Hcurrent.
  injection Hcurrent as _ Ho Hi Hs.
  rewrite Ho, Hi, Hs, Hoffset, Hinput, Hscale. repeat split. exact Hpending.
Qed.

End RoleCommit.

Lemma commit_under_a_role_witness :
  exists state,
    WlSurface.commit_pending (platform := Fixture.platform)
      (Fixture.machine
         (WlSurface.set_pending_offset (Some {| dx := 10; dy := 10 |})
            (WlSurface.frame 12%nat Fixture.child)))
    = WlSurface.Returned tt
        {| WlSurface.surface := Fixture.child;
           WlSurface.destroyed := ∅;
           WlSurface.events := [role_commit 20%nat state] |} /\
    WlSurfaceState.offset state = None /\
    WlSurfaceState.frame_callbacks state = [12%nat].
Proof.
  destruct (commit_under_a_role (platform := Fixture.platform)
              (Fixture.machine
                 (WlSurface.set_pending_offset (Some {| dx := 10; dy := 10 |})
                    (WlSurface.frame 12%nat Fixture.child)))
              20%nat eq_refl)
    as (state & Hrun & _ & _ & Hframes & _ & Hoffset & _).
  exists state. split; [exact Hrun|]. split; [|exact Hframes].
  destruct (WlSurfaceState.offset state) as [v|] eqn:Hv; [|reflexivity].
  destruct (proj1 (Hoffset v) eq_refl) as [Hpending Hne].
  cbn in Hpending, Hne. congruence.
Defined.

Lemma requests_then_commit_witness :
  let requests :=
    [request_set_buffer_scale 2; request_attach (Some 8%nat) 3 4;
     request_set_input_region (Some []); request_set_buffer_scale 3] in
  let s' :=
    WlSurface.surface
      (WlSurface.machine_of
         ((handle_all requests;;
           WlSurface.commit_pending (platform := Fixture.platform))
            (Fixture.machine Fixture.fresh))) in
  stream_scale (WlSurface.stream s') = 3 /\
  WlSurface.input_shape s' = Some [] /\
  WlSurface.offset_ s' = Displacement0.
Proof.
  cbn zeta.
  destruct (requests_then_commit (platform := Fixture.platform)
              [request_set_buffer_scale 2; request_attach (Some 8%nat) 3 4;
               request_set_input_region (Some []); request_set_buffer_scale 3]
              (Fixture.machine Fixture.fresh) eq_refl)
    as (Hoffset & Hinput & Hscale & _).
  split; [exact Hscale|]. split; [exact Hinput|exact Hoffset].
Defined.
